(** * Verification of the DICOM tag export pipeline

    A shallow embedding of [src/app/export_dicom_tags.py]:
    file discovery, the tag parser, the value sanitizer, the tabulator,
    the persistence writer, the raw dumper and the orchestrator.

    Conventions of the embedding.
    - A Python [str] is a Rocq [string], read as the UTF-8 bytes of the text.
      Every character the program inspects (punctuation, tab, newline, space)
      is ASCII, and no byte of a multi-byte UTF-8 sequence is ASCII, so
      filtering and replacing on bytes agrees with doing so on code points.
    - A Python [dict] whose key order is observable (a record, the attribute
      map) is an association list in insertion order.
    - Exceptions are values of [exn]; a computation that may raise returns a
      [result]; code that touches the file system or the log threads a
      [world]. *)

From Stdlib Require Import Ascii String ZArith.
From stdpp Require Import base list strings sorting gmap pretty.
From Equations Require Import Equations.
From Equations.Prop Require Import Logic.

(* ===================================================================== *)
(** * Python strings and lists of characters *)
(* ===================================================================== *)

(** [list(s)] and [str.join] of the empty separator over a character list. *)
Definition chars (s : string) : list ascii := list_ascii_of_string s.
Definition str_of (l : list ascii) : string := string_of_list_ascii l.

Definition tab : ascii := "009"%char.
Definition newline : ascii := "010"%char.
Definition dquote : ascii := "034"%char.
Definition space : ascii := " "%char.

(** [string.punctuation] of the Python standard library. *)
Definition punctuation : string :=
  String "!" (String dquote "#$%&'()*+,-./:;<=>?@[\]^_`{|}~").

(** [list.remove(x)]: drops the first occurrence; [None] stands for the
    [ValueError] Python raises when [x] does not occur. *)
Fixpoint list_remove (x : ascii) (l : list ascii) : option (list ascii) :=
  match l with
  | [] => None
  | y :: l' => if decide (x = y) then Some l' else cons y <$> list_remove x l'
  end.

(** [s.startswith(p)] and [sub in s] on character lists. *)
Fixpoint startswith (p l : list ascii) : bool :=
  match p, l with
  | [], _ => true
  | _ :: _, [] => false
  | a :: p', b :: l' => bool_decide (a = b) && startswith p' l'
  end.

Fixpoint contains (sub l : list ascii) : bool :=
  startswith sub l ||
  match l with
  | [] => false
  | _ :: l' => contains sub l'
  end.

(** [s.replace(old, new)]: the occurrences of [old] are replaced from left to
    right without overlap; with an empty [old], [new] is put around every
    character. *)
Equations? replace (old new s : list ascii) : list ascii by wf (length s) lt :=
  replace [] new s := new ++ flat_map (fun c => c :: new) s;
  replace (o :: old') new [] := [];
  replace (o :: old') new (c :: s') with startswith (o :: old') (c :: s') := {
    | true := new ++ replace (o :: old') new (drop (length old') s');
    | false := c :: replace (o :: old') new s' }.
Proof.
  all: simpl; try rewrite length_drop; lia.
Qed.

(* ===================================================================== *)
(** * Value sanitizer: [sanitize_tag] *)
(* ===================================================================== *)

Module Sanitizer.

(** The characters kept although they are punctuation. *)
Definition keep_list : list ascii := ["-"; "+"; "_"; ":"; "."; "|"]%char.

(** [invalid = list(string.punctuation + "\t" + "\n")] followed by
    [invalid.remove(keep)] for each kept character. *)
Definition invalid_init : list ascii :=
  chars (punctuation +:+ String tab "" +:+ String newline "").

Definition invalid_removed : option (list ascii) :=
  foldl (fun inv keep => inv ≫= list_remove keep) (Some invalid_init) keep_list.

Definition invalid : list ascii := default [] invalid_removed.

(** The loop [for char in raw: if char not in invalid: clean += char]. *)
Definition strip_invalid (raw : list ascii) : list ascii :=
  foldl (fun clean char =>
           if decide (char ∉ invalid) then clean ++ [char] else clean)
        [] raw.

Definition double_space : list ascii := [space; space].
Definition single_space : list ascii := [space].

(** ** Termination of the space-collapsing loop

    One pass of [clean.replace("  ", " ")] shortens [clean] whenever
    ["  " in clean] holds; this is the measure of the [while] loop. *)

Lemma replace_ds_nil : replace double_space single_space [] = [].
Proof. reflexivity. Qed.

Lemma replace_ds_hit (r : list ascii) :
  replace double_space single_space (space :: space :: r)
  = space :: replace double_space single_space r.
Proof. unfold double_space, single_space. simp replace. reflexivity. Qed.

Lemma replace_ds_miss (c : ascii) (r : list ascii) :
  startswith double_space (c :: r) = false ->
  replace double_space single_space (c :: r)
  = c :: replace double_space single_space r.
Proof.
  unfold double_space, single_space. intros H. simp replace.
  rewrite H. reflexivity.
Qed.

(** Induction two characters at a time, the way [replace] consumes its input. *)
Lemma replace_ds_ind (P : list ascii -> Prop) :
  P [] ->
  (forall r, P r -> P (space :: space :: r)) ->
  (forall c r, startswith double_space (c :: r) = false -> P r -> P (c :: r)) ->
  forall l, P l.
Proof.
  intros Hnil Hhit Hmiss l.
  assert (Hn : forall n k, length k <= n -> P k); [|by apply (Hn (length l))].
  induction n as [|n IH]; intros [|c [|d r]] Hk; simpl in Hk; try done; try lia.
  - apply Hmiss; [|done]. simpl. by destruct (bool_decide (space = c)).
  - destruct (startswith double_space (c :: d :: r)) eqn:Hs.
    + simpl in Hs. repeat case_bool_decide; simplify_eq /=.
      apply Hhit, IH. lia.
    + apply Hmiss; [done|]. apply IH. simpl. lia.
Qed.

Lemma replace_ds_length_le (l : list ascii) :
  length (replace double_space single_space l) <= length l.
Proof.
  induction l as [|r IH|c r Hs IH] using replace_ds_ind.
  - done.
  - rewrite replace_ds_hit. simpl. lia.
  - rewrite replace_ds_miss by done. simpl. lia.
Qed.

Lemma replace_ds_length_lt (l : list ascii) :
  contains double_space l = true ->
  length (replace double_space single_space l) < length l.
Proof.
  induction l as [|r IH|c r Hs IH] using replace_ds_ind; intros Hc.
  - done.
  - rewrite replace_ds_hit. simpl. pose proof (replace_ds_length_le r). lia.
  - rewrite replace_ds_miss by done. simpl.
    change (contains double_space (c :: r))
      with (startswith double_space (c :: r) || contains double_space r) in Hc.
    rewrite Hs in Hc. simpl in Hc. specialize (IH Hc). lia.
Qed.

(** The loop [while "  " in clean: clean = clean.replace("  ", " ")]. *)
Equations? collapse_spaces (clean : list ascii) : list ascii
  by wf (length clean) lt :=
  collapse_spaces clean with inspect (contains double_space clean) := {
    | exist _ true Hin => collapse_spaces (replace double_space single_space clean);
    | exist _ false Hin => clean }.
Proof. by apply replace_ds_length_lt. Qed.

(** [sanitize_tag(raw)]. *)
Definition sanitize_tag (raw : string) : string :=
  str_of (collapse_spaces (strip_invalid (chars raw))).

End Sanitizer.
Export Sanitizer.

(* ===================================================================== *)
(** * Exceptions, results and the world *)
(* ===================================================================== *)

Module Py.

(** The exception classes the program names or can meet. *)
Inductive exn : Set :=
| OSError | PermissionError | FileNotFoundError
| ValueError | UnicodeEncodeError
| KeyError | InvalidDicomError | DtypeWarning
| AttributeError | TypeError | UnboundLocalError.

Global Instance exn_eq_dec : EqDecision exn.
Proof. solve_decision. Defined.

(** [issubclass(e, c)] restricted to [exn]: [PermissionError] and
    [FileNotFoundError] derive from [OSError], [UnicodeEncodeError] from
    [ValueError]. *)
Definition issubclass (e c : exn) : bool :=
  bool_decide (e = c) ||
  match e, c with
  | PermissionError, OSError | FileNotFoundError, OSError
  | UnicodeEncodeError, ValueError => true
  | _, _ => false
  end.

(** Whether [except (c1, ..., cn)] handles [e]. *)
Definition handles (classes : list exn) (e : exn) : bool :=
  existsb (issubclass e) classes.

Inductive result (A : Type) : Type :=
| Ok (a : A)
| Raise (e : exn).
Global Arguments Ok {A} a.
Global Arguments Raise {A} e.

Definition is_ok {A} (r : result A) : bool :=
  match r with Ok _ => true | Raise _ => false end.

End Py.
Export Py.

(** ** Paths

    A [pathlib.Path] is the list of its [parts]; an absolute POSIX path has
    the root ["/"] as first part. Parts are plain names: the model does not
    interpret [".."]. *)
Definition Path : Type := list string.

Definition root : string := "/".

Definition is_absolute (p : Path) : bool :=
  match p with
  | r :: _ => bool_decide (r = root)
  | [] => false
  end.

(** [p.name]: the last part (empty for the empty path). *)
Definition name (p : Path) : string := default "" (last p).

(** [p.joinpath(n)]. *)
Definition joinpath (p : Path) (n : string) : Path := p ++ [n].

(** [s.endswith(suffix)] on strings. *)
Definition endswith (s suffix : string) : bool :=
  startswith (reverse (chars suffix)) (reverse (chars s)).

(** [p.stem]: the name without its last suffix; a leading dot does not start
    a suffix and a trailing dot is not one. *)
Fixpoint rsplit_dot (rev_name acc : list ascii) : option (list ascii * list ascii) :=
  match rev_name with
  | [] => None
  | c :: r =>
      if decide (c = "."%char) then Some (reverse r, acc)
      else rsplit_dot r (c :: acc)
  end.

Definition stem (p : Path) : string :=
  match rsplit_dot (reverse (chars (name p))) [] with
  | Some (base, ext) =>
      if bool_decide (base = []) || bool_decide (ext = []) then name p
      else str_of base
  | None => name p
  end.

(** [limit_path(path, level=2)] of [dcm_lib]: the last two parts joined by
    the path separator. *)
Definition limit_path (p : Path) : string :=
  match reverse (take 2 (reverse p)) with
  | [] => ""
  | [a] => a
  | a :: b :: _ => a +:+ "/" +:+ b
  end.

(** ASCII lower-casing, [str.lower] on the bytes of the text. *)
Definition lower_char (c : ascii) : ascii :=
  let n := nat_of_ascii c in
  if (65 <=? n)%nat && (n <=? 90)%nat then ascii_of_nat (n + 32) else c.

Definition lower (s : string) : string := str_of (lower_char <$> chars s).

(** Order of [Path] objects: their parts compared lexicographically, each
    part by code unit. *)
Fixpoint path_leb (p q : Path) : bool :=
  match p, q with
  | [], _ => true
  | _ :: _, [] => false
  | a :: p', b :: q' =>
      match String.compare a b with
      | Lt => true
      | Eq => path_leb p' q'
      | Gt => false
      end
  end.

Definition path_le (p q : Path) : Prop := path_leb p q = true.

Global Instance path_le_dec : RelDecision path_le.
Proof. intros p q. unfold path_le. apply _. Defined.

(** ** Insertion-ordered dictionaries with string keys

    [d[k] = v] keeps the position of an existing key and appends a new one. *)
Module Dict.

Definition dict (V : Type) : Type := list (string * V).

Fixpoint get {V} (k : string) (d : dict V) : option V :=
  match d with
  | [] => None
  | (k', v) :: d' => if decide (k = k') then Some v else get k d'
  end.

Fixpoint set {V} (k : string) (v : V) (d : dict V) : dict V :=
  match d with
  | [] => [(k, v)]
  | (k', v') :: d' =>
      if decide (k = k') then (k', v) :: d' else (k', v') :: set k v d'
  end.

Definition keys {V} (d : dict V) : list string := d.*1.

(** [dict(pairs)] and dict comprehensions: later pairs overwrite. *)
Definition of_pairs {V} (pairs : list (string * V)) : dict V :=
  foldl (fun d kv => set kv.1 kv.2 d) [] pairs.

End Dict.
Abbreviation dict := Dict.dict.

(** ** DICOM tags and datasets *)

(** [pydicom.tag.Tag(group, element)]: the 32-bit tag number. *)
Definition Tag (group element : Z) : Z := Z.lor (Z.shiftl group 16) element.

(** What [pydicom.dcmread(path, stop_before_pixels=True)] gives: the file
    meta group, the main data set (values as text) and the rendering
    [str(ds)]. *)
Record Dataset : Type := {
  file_meta : gmap Z string;
  elements : gmap Z string;
  ds_text : string
}.

(** ** Tables *)

(** A cell of a [pandas.DataFrame]; [None] is the missing marker (NaN/NaT). *)
Definition cell : Type := option string.

Record DataFrame : Type := {
  columns : list string;
  rows : list (list cell)
}.

(** ** The world: file system, clock, libraries, log *)

Inductive node : Type :=
| Dir
| File (content : string).

Inductive io_op : Type :=
| OpUnlink (p : Path)
| OpWrite (p : Path)
| OpMkdir (p : Path).

Global Instance io_op_eq_dec : EqDecision io_op.
Proof. solve_decision. Defined.

Inductive level : Set := INFO | ERROR.

Record world : Type := {
  (** parts of the working directory below the root *)
  cwd_parts : list string;
  (** the entries of the file system, by absolute path *)
  fs : list (Path * node);
  (** the operations the operating system refuses, and with what *)
  fault : io_op -> option exn;
  (** [pydicom.misc.is_dicom] and [pydicom.dcmread] on the files *)
  is_dicom : Path -> result bool;
  dcmread : Path -> result Dataset;
  (** [datetime.now().strftime("%Y-%m-%d %H:%M:%S")] *)
  now : string;
  (** [time.perf_counter() - timer], formatted with [:0.2f] *)
  elapsed : string;
  (** [pd.to_datetime(col, errors="coerce").dt.strftime("%Y-%m-%d")] and
      [pd.to_datetime(col, unit="s", errors="coerce").dt.strftime("%H:%M:%S %p")] *)
  to_date_column : list cell -> list cell;
  to_time_column : list cell -> list cell;
  (** the text [df.to_json(orient="records", lines=True)] and [df.to_csv]
      produce *)
  render_json : DataFrame -> string;
  render_csv : DataFrame -> string;
  (** the log, oldest entry first *)
  log : list (level * string)
}.

Definition set_fs (f : list (Path * node)) (w : world) : world :=
  {| cwd_parts := cwd_parts w; fs := f; fault := fault w;
     is_dicom := is_dicom w; dcmread := dcmread w; now := now w;
     elapsed := elapsed w;
     to_date_column := to_date_column w; to_time_column := to_time_column w;
     render_json := render_json w; render_csv := render_csv w;
     log := log w |}.

Definition add_log (entry : level * string) (w : world) : world :=
  {| cwd_parts := cwd_parts w; fs := fs w; fault := fault w;
     is_dicom := is_dicom w; dcmread := dcmread w; now := now w;
     elapsed := elapsed w;
     to_date_column := to_date_column w; to_time_column := to_time_column w;
     render_json := render_json w; render_csv := render_csv w;
     log := log w ++ [entry] |}.

(** ** State and exceptions *)

Module Eff.

(** A statement: from a state to a result and the state it leaves, also when
    it raises. *)
Definition St (S A : Type) : Type := S -> result A * S.

Definition ret {S A} (a : A) : St S A := fun s => (Ok a, s).
Definition raise {S A} (e : exn) : St S A := fun s => (Raise e, s).

Definition bind {S A B} (m : St S A) (k : A -> St S B) : St S B :=
  fun s =>
    match m s with
    | (Ok a, s') => k a s'
    | (Raise e, s') => (Raise e, s')
    end.

Definition gets {S A} (f : S -> A) : St S A := fun s => (Ok (f s), s).
Definition modify {S} (f : S -> S) : St S unit := fun s => (Ok tt, f s).
Definition lift_result {S A} (r : result A) : St S A := fun s => (r, s).

(** [try: body except classes: handler]. *)
Definition try_except {S A} (body : St S A) (classes : list exn)
    (handler : exn -> St S A) : St S A :=
  fun s =>
    match body s with
    | (Ok a, s') => (Ok a, s')
    | (Raise e, s') =>
        if handles classes e then handler e s' else (Raise e, s')
    end.

(** [for x in l: body], threading an accumulator. *)
Fixpoint foldM {S X A} (f : A -> X -> St S A) (a : A) (l : list X) : St S A :=
  match l with
  | [] => ret a
  | x :: l' => bind (f a x) (fun a' => foldM f a' l')
  end.

Definition for_each {S X} (l : list X) (body : X -> St S unit) : St S unit :=
  foldM (fun _ x => body x) tt l.

(** Local variables of a function body, next to the world. *)
Definition with_locals {W L A} (init : L) (m : St (W * L) A) : St W A :=
  fun w => let '(r, (w', _)) := m (w, init) in (r, w').

Definition on_world {W L A} (m : St W A) : St (W * L) A :=
  fun '(w, l) => let '(r, w') := m w in (r, (w', l)).

Definition get_local {W L A} (f : L -> A) : St (W * L) A :=
  fun '(w, l) => (Ok (f l), (w, l)).

Definition set_local {W L} (f : L -> L) : St (W * L) unit :=
  fun '(w, l) => (Ok tt, (w, f l)).

(** Reading a local that may not have been assigned yet. *)
Definition read_local {W L A} (f : L -> option A) : St (W * L) A :=
  fun '(w, l) =>
    match f l with
    | Some a => (Ok a, (w, l))
    | None => (Raise UnboundLocalError, (w, l))
    end.

End Eff.
Export Eff.

Notation "x <- m ;; k" := (bind m (fun x => k))
  (at level 100, m at next level, right associativity).
Notation "m ;; k" := (bind m (fun _ => k))
  (at level 100, right associativity).

Definition M (A : Type) : Type := St world A.

(* ===================================================================== *)
(** * File system and logger *)
(* ===================================================================== *)

Module FS.

Definition getcwd (w : world) : Path := root :: cwd_parts w.

(** [p.absolute()]: the path itself when absolute, else below the working
    directory; nothing is normalised. *)
Definition absolute (w : world) (p : Path) : Path :=
  if is_absolute p then p else getcwd w ++ p.

Fixpoint lookup_path (p : Path) (f : list (Path * node)) : option node :=
  match f with
  | [] => None
  | (q, n) :: f' => if decide (p = q) then Some n else lookup_path p f'
  end.

Definition stat (w : world) (p : Path) : option node :=
  lookup_path (absolute w p) (fs w).

Definition exists_ (w : world) (p : Path) : bool :=
  match stat w p with Some _ => true | None => false end.

Definition is_dir (w : world) (p : Path) : bool :=
  match stat w p with Some Dir => true | _ => false end.

Definition is_file (w : world) (p : Path) : bool :=
  match stat w p with Some (File _) => true | _ => false end.

(** [p.stat().st_size > 0] for a regular file. *)
Definition nonempty_file (w : world) (p : Path) : bool :=
  match stat w p with
  | Some (File c) => negb (bool_decide (c = ""))
  | _ => false
  end.

Fixpoint strip_prefix (pre p : Path) : option Path :=
  match pre, p with
  | [], _ => Some p
  | _ :: _, [] => None
  | a :: pre', b :: p' => if decide (a = b) then strip_prefix pre' p' else None
  end.

(** [src.glob("*" + suffix)] for a suffix without pattern characters: the
    entries directly in [src] whose name ends with [suffix], in the order the
    file system lists them. *)
Definition glob (w : world) (src : Path) (suffix : string) : list Path :=
  omap (fun e : Path * node =>
          match strip_prefix (absolute w src) e.1 with
          | Some [n] => if endswith n suffix then Some (src ++ [n]) else None
          | _ => None
          end) (fs w).

(** [src.rglob("*" + suffix)]: the same at any depth below [src]. *)
Definition rglob (w : world) (src : Path) (suffix : string) : list Path :=
  omap (fun e : Path * node =>
          match strip_prefix (absolute w src) e.1 with
          | Some (n :: rest) =>
              if endswith (name (n :: rest)) suffix
              then Some (src ++ n :: rest) else None
          | _ => None
          end) (fs w).

Fixpoint store (p : Path) (n : node) (f : list (Path * node)) : list (Path * node) :=
  match f with
  | [] => [(p, n)]
  | (q, m) :: f' => if decide (p = q) then (q, n) :: f' else (q, m) :: store p n f'
  end.

(** [p.unlink(missing_ok=True)]. *)
Definition unlink (p : Path) : St world unit :=
  fun w =>
    let a := absolute w p in
    match fault w (OpUnlink a) with
    | Some e => (Raise e, w)
    | None =>
        match lookup_path a (fs w) with
        | Some Dir => (Raise OSError, w)
        | _ => (Ok tt, set_fs (filter (fun e : Path * node => e.1 <> a) (fs w)) w)
        end
    end.

(** Opening [p] for writing and writing [content]. *)
Definition write_text (p : Path) (content : string) : St world unit :=
  fun w =>
    let a := absolute w p in
    match fault w (OpWrite a) with
    | Some e => (Raise e, w)
    | None =>
        match lookup_path a (fs w) with
        | Some Dir => (Raise OSError, w)
        | _ => (Ok tt, set_fs (store a (File content) (fs w)) w)
        end
    end.

(** [p.mkdir(exist_ok=True, parents=True)]. *)
Definition mkdir (p : Path) : St world unit :=
  fun w =>
    let a := absolute w p in
    match fault w (OpMkdir a) with
    | Some e => (Raise e, w)
    | None =>
        let dirs := (fun n => take n a) <$> seq 1 (length a) in
        if forallb (fun q => match lookup_path q (fs w) with
                             | Some (File _) => false | _ => true end) dirs
        then (Ok tt,
              set_fs (foldl (fun f q => match lookup_path q f with
                                        | None => f ++ [(q, Dir)]
                                        | Some _ => f end) (fs w) dirs) w)
        else (Raise OSError, w)
    end.

End FS.

Module Logger.

Definition info (msg : string) : St world unit := modify (add_log (INFO, msg)).

(** [logger.exception(msg)]: an ERROR entry. *)
Definition exception (msg : string) : St world unit := modify (add_log (ERROR, msg)).

End Logger.

Definition repr_bool (b : bool) : string := if b then "True" else "False".

(** [MODULE = Path(__file__).resolve().stem]. *)
Definition MODULE : string := "export_dicom_tags".

(* ===================================================================== *)
(** * File discovery: [find_dicom] *)
(* ===================================================================== *)

Definition allowed_ext : list string := [".dcm"; ".dicom"; ".gz"; ".nii"].

(** [sorted(paths)]. *)
Definition sorted (l : list Path) : list Path := merge_sort path_le l.

Definition find_dicom (src_folder : Path) (file_ext : string)
    (include_recursive : bool) : M (list Path) :=
  file_paths <- gets (fun w =>
    if FS.is_dir w src_folder && bool_decide (lower file_ext ∈ allowed_ext) then
      let glob := if include_recursive then FS.rglob w src_folder
                  else FS.glob w src_folder in
      FS.absolute w <$> filter (fun p => FS.is_file w p) (sorted (glob file_ext))
    else []) ;;
  Logger.info ("found (" +:+ pretty (length file_paths) +:+ ") '" +:+ file_ext
               +:+ "' files recursive=" +:+ repr_bool include_recursive +:+ ")") ;;
  ret file_paths.

(* ===================================================================== *)
(** * Tag parser: the maps, [init_header_map], [parse_tags] *)
(* ===================================================================== *)

(** [dict(pairs)] for a dictionary used by lookup only. *)
Definition gmap_of_pairs (pairs : list (string * string)) : gmap string string :=
  foldl (fun m kv => <[kv.1 := kv.2]> m) ∅ pairs.

Definition transfer_syntax_pairs : list (string * string) :=
  [ ("1.2.840.10008.1.2", "ImplicitVRLittleEndian");
    ("1.2.840.10008.1.2.1", "ExplicitVRLittleEndian");
    ("1.2.840.10008.1.2.2", "ExplicitVRBigEndian");
    ("1.2.840.10008.1.2.4.50", "JPEGBaseLineLossy8bit");
    ("1.2.840.10008.1.2.4.51", "JPEGBaseLineLossy12bit");
    ("1.2.840.10008.1.2.4.70", "JPEGLossless");
    ("1.2.840.10008.1.2.4.80", "JPEGLSLossless");
    ("1.2.840.10008.1.2.4.90", "JPEG2000Lossless");
    ("1.2.840.10008.1.2.4.91", "JPEG2000Lossy");
    ("1.2.840.10008.1.2.5", "RLELossless") ].

Definition get_transfer_syntax_map (include_reverse : bool) : gmap string string :=
  let transfer_syntax_map := gmap_of_pairs transfer_syntax_pairs in
  if include_reverse then
    (* [update]: the reversed pairs overwrite *)
    gmap_of_pairs ((fun kv => (kv.2, kv.1)) <$> transfer_syntax_pairs)
      ∪ transfer_syntax_map
  else transfer_syntax_map.

(** [syntax_map.get(key, "")]. *)
Definition get_default (m : gmap string string) (key : string) : string :=
  default "" (m !! key).

Definition map_tag_objects : dict Z :=
  Dict.of_pairs
    [ ("modality", Tag 0x0008 0x0060);
      ("sopInstanceUid", Tag 0x0002 0x0003);
      ("institution_name", Tag 0x0008 0x0080);
      ("manufacturer", Tag 0x0008 0x0070);
      ("manufacturer_model", Tag 0x0008 0x1090);
      ("sourceAET", Tag 0x0002 0x0016);
      ("station_name", Tag 0x0008 0x1010);
      ("study_description", Tag 0x0008 0x1030);
      ("study_date", Tag 0x0008 0x0020);
      ("study_time", Tag 0x0008 0x0030);
      ("transferSyntaxUid", Tag 0x0002 0x0010) ].

Definition init_header_map (filename : string) : dict string :=
  let default_str := "" in
  let headers := ["filename"] ++ Dict.keys map_tag_objects in
  let hdr_map := Dict.of_pairs ((fun hdr => (hdr, default_str)) <$> headers) in
  Dict.set "filename" filename hdr_map.

Definition metadata_attrs : list string :=
  ["sopInstanceUid"; "sourceAET"; "transferSyntaxUid"].

(** One turn of the loop over [map_tag_objects().items()]. *)
Definition extract_attr (sanitize_values : bool) (syntax_map : gmap string string)
    (ds : Dataset) (extract : dict string) (item : string * Z) : dict string :=
  let '(attr, tag_obj) := item in
  if decide (attr ∈ metadata_attrs) then
    match file_meta ds !! tag_obj with
    | Some value =>
        let extract := Dict.set attr value extract in
        Dict.set "transferSyntaxName" (get_default syntax_map value) extract
    | None => extract
    end
  else
    match elements ds !! tag_obj with
    | Some tag_val =>
        let tag_val := if sanitize_values then sanitize_tag tag_val else tag_val in
        Dict.set attr tag_val extract
    | None => extract
    end.

Definition extract_all (sanitize_values : bool) (syntax_map : gmap string string)
    (ds : Dataset) (extract : dict string) : dict string :=
  foldl (extract_attr sanitize_values syntax_map ds) extract map_tag_objects.

(** The exception classes the parser handles per file. *)
Definition parse_handled : list exn :=
  [OSError; ValueError; KeyError; InvalidDicomError].

(** One turn of the loop over [dicom_paths]. *)
Definition parse_one (sanitize_values : bool) (syntax_map : gmap string string)
    (tag_dumps : list (dict string)) (src_dcm : Path) : M (list (dict string)) :=
  let extract := init_header_map (name src_dcm) in
  try_except
    (ok <- (fun w => (is_dicom w src_dcm, w)) ;;
     if negb ok then raise InvalidDicomError
     else
       ds <- (fun w => (dcmread w src_dcm, w)) ;;
       let extract := extract_all sanitize_values syntax_map ds extract in
       Logger.info (limit_path src_dcm) ;;
       ret (tag_dumps ++ [extract]))
    parse_handled
    (fun _ => Logger.exception (limit_path src_dcm) ;; ret tag_dumps).

Definition parse_tags (dicom_paths : list Path) (sanitize_values : bool)
    : M (list (dict string)) :=
  let syntax_map := get_transfer_syntax_map false in
  foldM (parse_one sanitize_values syntax_map) [] dicom_paths.

(* ===================================================================== *)
(** * Tabulator: [extract_to_df] *)
(* ===================================================================== *)

Module Pandas.

(** [pd.DataFrame(records)]: the columns are the keys in order of first
    appearance; a record without a key gets the missing marker there. *)
Definition union_columns (records : list (dict string)) : list string :=
  foldl (fun cols r =>
           foldl (fun cols k => if decide (k ∈ cols) then cols else cols ++ [k])
                 cols (Dict.keys r))
        [] records.

Definition of_records (records : list (dict string)) : DataFrame :=
  let cols := union_columns records in
  {| columns := cols;
     rows := (fun r => (fun c => Dict.get c r) <$> cols) <$> records |}.

Fixpoint index_of (c : string) (cols : list string) : option nat :=
  match cols with
  | [] => None
  | c' :: cols' => if decide (c = c') then Some 0 else S <$> index_of c cols'
  end.

(** [df[c]] for a column that exists. *)
Definition column (c : string) (df : DataFrame) : list cell :=
  match index_of c (columns df) with
  | Some i => (fun row => default None (row !! i)) <$> rows df
  | None => []
  end.

(** [df[c] = values]: overwrites the column or appends it. *)
Definition set_column (c : string) (values : list cell) (df : DataFrame) : DataFrame :=
  match index_of c (columns df) with
  | Some i =>
      {| columns := columns df;
         rows := zip_with (fun row v => <[i := v]> row) (rows df) values |}
  | None =>
      {| columns := columns df ++ [c];
         rows := zip_with (fun row v => row ++ [v]) (rows df) values |}
  end.

(** [df[c] = scalar]. *)
Definition set_scalar (c : string) (value : cell) (df : DataFrame) : DataFrame :=
  set_column c (replicate (length (rows df)) value) df.

End Pandas.

Definition extract_handled : list exn := [PermissionError; ValueError; DtypeWarning].

(** [None] is Python's [None]: nothing to write. *)
Definition extract_to_df (dicom_paths : list Path) : M (option DataFrame) :=
  try_except
    (tag_dumps <- parse_tags dicom_paths false ;;
     if (0 <? length tag_dumps)%nat then
       let df := Pandas.of_records tag_dumps in
       stamp <- gets now ;;
       let df := Pandas.set_scalar "extract_date" (Some stamp) df in
       df <- (if decide ("study_date" ∈ columns df) then
                conv <- gets to_date_column ;;
                ret (Pandas.set_column "study_date"
                       (conv (Pandas.column "study_date" df)) df)
              else ret df) ;;
       df <- (if decide ("study_time" ∈ columns df) then
                conv <- gets to_time_column ;;
                ret (Pandas.set_column "study_time"
                       (conv (Pandas.column "study_time" df)) df)
              else ret df) ;;
       ret (Some df)
     else ret None)
    extract_handled
    (fun _ => Logger.exception "extract error" ;; ret None).

(* ===================================================================== *)
(** * Persistence writer: [write_to_file] *)
(* ===================================================================== *)

(** The local variables of [write_to_file]; a path not yet assigned is
    [None]. *)
Record write_locals : Type := {
  is_csv_saved : bool;
  is_json_saved : bool;
  json_path : option Path;
  csv_path : option Path
}.

Definition set_json_path (p : Path) (l : write_locals) : write_locals :=
  {| is_csv_saved := is_csv_saved l; is_json_saved := is_json_saved l;
     json_path := Some p; csv_path := csv_path l |}.
Definition set_csv_path (p : Path) (l : write_locals) : write_locals :=
  {| is_csv_saved := is_csv_saved l; is_json_saved := is_json_saved l;
     json_path := json_path l; csv_path := Some p |}.
Definition set_json_saved (l : write_locals) : write_locals :=
  {| is_csv_saved := is_csv_saved l; is_json_saved := true;
     json_path := json_path l; csv_path := csv_path l |}.
Definition set_csv_saved (l : write_locals) : write_locals :=
  {| is_csv_saved := true; is_json_saved := is_json_saved l;
     json_path := json_path l; csv_path := csv_path l |}.

(** Looking up the method [to_json] or [to_csv] on [df]: [None] has neither. *)
Definition method_of (df : option DataFrame) : St world DataFrame :=
  match df with
  | Some d => ret d
  | None => raise AttributeError
  end.

Definition write_handled : list exn := [PermissionError; ValueError; DtypeWarning].

Definition when {S} (b : bool) (m : St S unit) : St S unit :=
  if b then m else ret tt.

Definition write_to_file (df : option DataFrame) (dst_folder : Path) : M bool :=
  with_locals
    {| is_csv_saved := false; is_json_saved := false;
       json_path := None; csv_path := None |}
    (try_except
       (set_local (set_json_path (joinpath dst_folder (MODULE +:+ ".json"))) ;;
        jp <- read_local json_path ;;
        present <- on_world (gets (fun w => FS.is_file w jp)) ;;
        when present (on_world (FS.unlink jp)) ;;
        (* df.to_json(json_path, orient="records", lines=True) *)
        d <- on_world (method_of df) ;;
        text <- on_world (gets (fun w => render_json w d)) ;;
        on_world (FS.write_text jp text) ;;
        saved <- on_world (gets (fun w => FS.is_file w jp && FS.nonempty_file w jp)) ;;
        when saved (set_local set_json_saved ;;
                    on_world (Logger.info (limit_path jp))) ;;
        set_local (set_csv_path (joinpath dst_folder (MODULE +:+ ".csv"))) ;;
        cp <- read_local csv_path ;;
        present <- on_world (gets (fun w => FS.is_file w cp)) ;;
        when present (on_world (FS.unlink cp)) ;;
        (* df.to_csv(csv_path, ...) *)
        d <- on_world (method_of df) ;;
        text <- on_world (gets (fun w => render_csv w d)) ;;
        on_world (FS.write_text cp text) ;;
        saved <- on_world (gets (fun w => FS.is_file w cp && FS.nonempty_file w cp)) ;;
        when saved (set_local set_csv_saved ;;
                    on_world (Logger.info (limit_path cp))))
       write_handled
       (fun _ =>
          cp <- read_local csv_path ;;
          on_world (Logger.exception (limit_path cp))) ;;
     c <- get_local is_csv_saved ;;
     j <- get_local is_json_saved ;;
     ret (c && j)).

(* ===================================================================== *)
(** * Raw dumper: [dump_tags_to_txt], [dump_dicom_all_tags] *)
(* ===================================================================== *)

Definition dump_handled : list exn :=
  [OSError; PermissionError; ValueError; InvalidDicomError].

Definition dump_tags_to_txt (src_dcm dst_folder : Path) : M bool :=
  try_except
    (there <- gets (fun w => FS.exists_ w dst_folder) ;;
     when (negb there) (FS.mkdir dst_folder) ;;
     let dump_path := joinpath dst_folder (stem src_dcm +:+ ".txt") in
     ds <- (fun w => (dcmread w src_dcm, w)) ;;
     FS.write_text dump_path (ds_text ds) ;;
     gets (fun w => FS.is_file w dump_path && FS.nonempty_file w dump_path))
    dump_handled
    (fun _ => Logger.exception (limit_path src_dcm) ;; ret false).

Definition dump_dicom_all_tags (dicom_paths : list Path) (dst_folder : Path) : M unit :=
  there <- gets (fun w => FS.exists_ w dst_folder) ;;
  when (negb there) (FS.mkdir dst_folder) ;;
  txt_paths <- gets (fun w =>
    FS.absolute w <$> filter (fun p => FS.is_file w p)
                        (sorted (FS.glob w dst_folder ".txt"))) ;;
  Logger.info ("purged (" +:+ pretty (length txt_paths) +:+ ") prior '.txt' files: "
               +:+ limit_path dst_folder) ;;
  for_each txt_paths FS.unlink ;;
  for_each dicom_paths (fun dcm_path => dump_tags_to_txt dcm_path dst_folder ;; ret tt) ;;
  Logger.info ("dumped (" +:+ pretty (length dicom_paths) +:+ ") DICOM files: "
               +:+ limit_path dst_folder).

(* ===================================================================== *)
(** * Orchestrator: [run_pipeline] *)
(* ===================================================================== *)

(** The validated command-line arguments of [parse_cmd_args]. *)
Record cmd_args : Type := {
  input_path : Path;
  output_path : Path;
  dump_path : Path
}.

(** [show_header] only prints the environment to the console and is left
    out. *)
Definition run_pipeline (args : cmd_args) : M unit :=
  dicom_paths <- find_dicom (input_path args) ".dcm" false ;;
  df <- extract_to_df dicom_paths ;;
  write_to_file df (output_path args) ;;
  dump_dicom_all_tags dicom_paths (dump_path args) ;;
  took <- gets elapsed ;;
  Logger.info (MODULE +:+ " finished: (" +:+ took +:+ " seconds)").

(* ===================================================================== *)
(** * Notions used in the statements *)
(* ===================================================================== *)

(** ** Records *)

(** The tags of the three attributes read from the file meta group. *)
Definition tag_sop : Z := Tag 0x0002 0x0003.
Definition tag_aet : Z := Tag 0x0002 0x0016.
Definition tag_tsuid : Z := Tag 0x0002 0x0010.

(** The value stored for an attribute of the main data set, for one of the
    file meta group, and the transfer syntax name a record ends with. *)
Definition main_value (sanitize_values : bool) (ds : Dataset) (tag : Z) : string :=
  match elements ds !! tag with
  | Some v => if sanitize_values then sanitize_tag v else v
  | None => ""
  end.

Definition meta_value (ds : Dataset) (tag : Z) : string :=
  default "" (file_meta ds !! tag).

Definition syntax_name (m : gmap string string) (ds : Dataset) : option string :=
  match file_meta ds !! tag_tsuid, file_meta ds !! tag_aet, file_meta ds !! tag_sop with
  | Some v, _, _ => Some (get_default m v)
  | None, Some v, _ => Some (get_default m v)
  | None, None, Some v => Some (get_default m v)
  | None, None, None => None
  end.

(** ** What one file contributes to the records *)

(** The exception the parser meets on a file, if any: the one [is_dicom]
    raises, [InvalidDicomError] when the sniff fails, or the one [dcmread]
    raises. *)
Definition raised (isd : Path -> result bool) (rd : Path -> result Dataset)
    (p : Path) : option exn :=
  match isd p with
  | Raise e => Some e
  | Ok false => Some InvalidDicomError
  | Ok true => match rd p with Raise e => Some e | Ok _ => None end
  end.

(** The data set of a file that passes the sniff and is read. *)
Definition readable (isd : Path -> result bool) (rd : Path -> result Dataset)
    (p : Path) : option Dataset :=
  match isd p with
  | Ok true => match rd p with Ok ds => Some ds | Raise _ => None end
  | _ => None
  end.

(** Passing the format sniff, and passing it and being read as well. *)
Definition passes_sniff (isd : Path -> result bool) (p : Path) : bool :=
  match isd p with Ok true => true | _ => false end.

Definition read_ok (isd : Path -> result bool) (rd : Path -> result Dataset)
    (p : Path) : bool :=
  passes_sniff isd p && is_ok (rd p).

Definition record_of (san : bool) (p : Path) (ds : Dataset) : dict string :=
  extract_all san (get_transfer_syntax_map false) ds (init_header_map (name p)).

(** The records of the readable files, in the order of the paths. *)
Definition records_of (isd : Path -> result bool) (rd : Path -> result Dataset)
    (san : bool) (paths : list Path) : list (dict string) :=
  omap (fun p => record_of san p <$> readable isd rd p) paths.

(** The first exception no handler takes, if any. *)
Fixpoint first_unhandled (isd : Path -> result bool) (rd : Path -> result Dataset)
    (paths : list Path) : option exn :=
  match paths with
  | [] => None
  | p :: ps =>
      match raised isd rd p with
      | Some e => if handles parse_handled e then first_unhandled isd rd ps
                  else Some e
      | None => first_unhandled isd rd ps
      end
  end.

(** Every exception the parser meets on the paths is one it handles. *)
Definition errors_handled (isd : Path -> result bool) (rd : Path -> result Dataset)
    (paths : list Path) : bool :=
  forallb (fun p => match raised isd rd p with
                    | Some e => handles parse_handled e
                    | None => true
                    end) paths.

(** What the sanitizing switch does to a record read from [ds]: the
    attributes of the main data set hold the extracted value, sanitized when
    the switch is on; the three attributes of the file meta group hold the
    value as read, whatever the switch. *)
Definition sanitized_where_due (san : bool) (ds : Dataset) (rec : dict string) : Prop :=
  (forall attr tag, (attr, tag) ∈ map_tag_objects -> attr ∉ metadata_attrs ->
     Dict.get attr rec =
       Some (match elements ds !! tag with
             | Some v => if san then sanitize_tag v else v
             | None => ""
             end))
  /\ (forall attr tag, (attr, tag) ∈ map_tag_objects -> attr ∈ metadata_attrs ->
     Dict.get attr rec = Some (default "" (file_meta ds !! tag))).

(** ** Discovery *)

(** No file or directory is named ["/"]. *)
Definition fs_names_ok (w : world) : bool :=
  forallb (fun e : Path * node => negb (bool_decide (root ∈ tail e.1))) (fs w).

(** [p] is [src] followed by the parts [n :: rest] of an entry below [src]
    whose name ends with [suffix]; directly below unless [recursive]. *)
Definition below (w : world) (src : Path) (suffix : string) (recursive : bool)
    (p : Path) : Prop :=
  exists n rest,
    p = src ++ n :: rest
    /\ (recursive = false -> rest = [])
    /\ FS.absolute w src ++ n :: rest ∈ (fs w).*1
    /\ endswith (name (n :: rest)) suffix = true.

(** The prefix [absolute] puts before the paths found from [src]. *)
Definition anchor (w : world) (src : Path) : Path :=
  if is_absolute src then [] else FS.getcwd w.

(* ===================================================================== *)
(** * Scenarios *)
(* ===================================================================== *)

Module Scenario.

Definition render_names (df : DataFrame) : string := String.concat "," (columns df).

Definition input_dir : Path := ["/"; "data"; "input"].
Definition output_dir : Path := ["/"; "data"; "output"].
Definition dump_dir : Path := ["/"; "data"; "tag_dumps"].
Definition args : cmd_args :=
  {| input_path := input_dir; output_path := output_dir; dump_path := dump_dir |}.

Definition a_dcm : Path := input_dir ++ ["a.dcm"].
Definition b_dcm : Path := input_dir ++ ["b.dcm"].
Definition c_dcm : Path := input_dir ++ ["c.dcm"].

(** A machine with the three directories and nothing in them. *)
Definition empty_dirs : list (Path * node) :=
  [ (["/"], Dir); (["/"; "data"], Dir); (input_dir, Dir); (output_dir, Dir);
    (dump_dir, Dir) ].

Definition machine (files : list (Path * node))
    (isd : Path -> result bool) (rd : Path -> result Dataset)
    (flt : io_op -> option exn) : world :=
  {| cwd_parts := ["srv"]; fs := empty_dirs ++ files; fault := flt;
     is_dicom := isd; dcmread := rd;
     now := "2024-05-01 12:00:00"; elapsed := "0.01";
     to_date_column := id; to_time_column := id;
     render_json := render_names; render_csv := render_names; log := [] |}.

Definition no_fault : io_op -> option exn := fun _ => None.

(** Answers of pydicom for a single file [a.dcm] with data set [ds]. *)
Definition sniff_a (p : Path) : result bool :=
  if decide (p = a_dcm) then Ok true else Raise FileNotFoundError.
Definition read_a (ds : Dataset) (p : Path) : result Dataset :=
  if decide (p = a_dcm) then Ok ds else Raise FileNotFoundError.

(** A file whose meta group has none of the three attributes. *)
Definition ds_no_meta : Dataset :=
  {| file_meta := ∅;
     elements := {[ Tag 0x0008 0x0060 := "CT" ]};
     ds_text := "(0008,0060) Modality CS: 'CT'" |}.

Definition w_no_meta : world :=
  machine [(a_dcm, File "DICM")] sniff_a (read_a ds_no_meta) no_fault.

(** A file with punctuation in a meta attribute and in a main attribute. *)
Definition ds_punct : Dataset :=
  {| file_meta := {[ tag_aet := "ARCHIVE,1" ]};
     elements := {[ Tag 0x0008 0x0080 := "St. Mary's  Hospital" ]};
     ds_text := "(0008,0080) Institution Name LO" |}.

Definition w_punct : world :=
  machine [(a_dcm, File "DICM")] sniff_a (read_a ds_punct) no_fault.

(** A file that passes the sniff and then fails to parse. *)
Definition w_corrupt : world :=
  machine [(a_dcm, File "DICM")] sniff_a
    (fun _ => Raise InvalidDicomError) no_fault.

(** Three files: one readable, one that is not DICOM, one that cannot be
    opened. *)
Definition sniff_abc (p : Path) : result bool :=
  if decide (p = a_dcm) then Ok true
  else if decide (p = b_dcm) then Ok false
  else Raise PermissionError.

Definition w_abc : world :=
  machine [(a_dcm, File "DICM"); (b_dcm, File "text"); (c_dcm, File "DICM")]
    sniff_abc (read_a ds_punct) no_fault.

(** An input directory with upper-case extensions and a sub-directory. *)
Definition w_upper : world :=
  machine [ (input_dir ++ ["B.DCM"], File "DICM");
            (input_dir ++ ["A.DCM"], File "DICM");
            (input_dir ++ ["c.dcm"], File "DICM");
            (input_dir ++ ["sub.dcm"], Dir);
            (input_dir ++ ["sub.dcm"; "d.dcm"], File "DICM") ]
    (fun _ => Ok true) (fun _ => Raise InvalidDicomError) no_fault.

(** An earlier run left its two artifacts; the input directory is empty. *)
Definition old_json : Path := output_dir ++ ["export_dicom_tags.json"].
Definition old_csv : Path := output_dir ++ ["export_dicom_tags.csv"].

Definition w_no_input : world :=
  machine [(old_json, File "{}"); (old_csv, File "filename")]
    (fun _ => Raise FileNotFoundError) (fun _ => Raise FileNotFoundError) no_fault.

(** The operating system refuses to write one path. *)
Definition deny_write (p : Path) (e : exn) (op : io_op) : option exn :=
  if decide (op = OpWrite p) then Some e else None.

Definition w_json_denied : world :=
  machine [(a_dcm, File "DICM")] sniff_a (read_a ds_punct)
    (deny_write old_json PermissionError).

Definition w_csv_denied : world :=
  machine [(a_dcm, File "DICM")] sniff_a (read_a ds_punct)
    (deny_write old_csv PermissionError).

(** A table of one row. *)
Definition one_row : DataFrame :=
  Pandas.of_records [record_of false a_dcm ds_punct].

End Scenario.

(* ===================================================================== *)
(** * Properties of the sanitizer *)
(* ===================================================================== *)

(** Closing a decidable goal by evaluation. *)
Ltac by_compute := eapply bool_decide_eq_true_1; vm_compute; reflexivity.

Section SanitizerFacts.

Implicit Types (l k raw : list ascii) (c : ascii) (s : string).

Lemma chars_str_of l : chars (str_of l) = l.
Proof. apply list_ascii_of_string_of_list_ascii. Qed.

Lemma str_of_chars s : str_of (chars s) = s.
Proof. apply string_of_list_ascii_of_string. Qed.

Lemma length_chars s : length (chars s) = String.length s.
Proof. induction s as [|a s IH]; simpl; [done | by rewrite IH]. Qed.

(** Every [invalid.remove(keep)] finds its character. *)
Lemma invalid_removed_ok : invalid_removed = Some invalid.
Proof. reflexivity. Qed.

(** The invalid characters are the punctuation outside the white list, the
    tab and the newline. *)
Lemma invalid_spec c :
  c ∈ invalid <->
  (c ∈ chars punctuation /\ c ∉ keep_list) \/ c = tab \/ c = newline.
Proof.
  assert (H : bool_decide (c ∈ invalid)
              = bool_decide ((c ∈ chars punctuation /\ c ∉ keep_list)
                             \/ c = tab \/ c = newline)).
  { destruct c as [[] [] [] [] [] [] [] []]; vm_compute; reflexivity. }
  split; intros Hc.
  - eapply bool_decide_eq_true_1. rewrite <- H. by apply bool_decide_eq_true_2.
  - eapply bool_decide_eq_true_1. rewrite H. by apply bool_decide_eq_true_2.
Qed.

Lemma space_valid : space ∉ invalid.
Proof. by_compute. Qed.

Lemma keep_valid c : c ∈ keep_list -> c ∉ invalid.
Proof.
  intros Hk Hi. apply invalid_spec in Hi as [[_ Hn]|[->| ->]]; [done|..].
  - assert (tab ∉ keep_list) by by_compute. done.
  - assert (newline ∉ keep_list) by by_compute. done.
Qed.

(** The character loop is a filter. *)
Lemma strip_invalid_filter raw :
  strip_invalid raw = filter (fun c => c ∉ invalid) raw.
Proof.
  unfold strip_invalid.
  assert (H : forall acc,
    foldl (fun clean char =>
             if decide (char ∉ invalid) then clean ++ [char] else clean) acc raw
    = acc ++ filter (fun c => c ∉ invalid) raw).
  { induction raw as [|c raw IH]; intros acc; simpl.
    - by rewrite app_nil_r.
    - rewrite IH, filter_cons. destruct (decide (c ∉ invalid)); [|done].
      by rewrite <- app_assoc. }
  apply (H []).
Qed.

Lemma strip_invalid_valid raw : Forall (fun c => c ∉ invalid) (strip_invalid raw).
Proof.
  rewrite strip_invalid_filter. apply Forall_forall.
  intros c Hc%list_elem_of_filter. tauto.
Qed.

Lemma strip_invalid_id raw :
  Forall (fun c => c ∉ invalid) raw -> strip_invalid raw = raw.
Proof.
  rewrite strip_invalid_filter. induction 1 as [|c raw Hc _ IH]; [done|].
  rewrite filter_cons. destruct (decide (c ∉ invalid)); [|done]. by rewrite IH.
Qed.

(** One pass of the replacement only deletes characters. *)
Lemma replace_ds_sublist l :
  replace double_space single_space l `sublist_of` l.
Proof.
  induction l as [|r IH|c r Hs IH] using replace_ds_ind.
  - done.
  - rewrite replace_ds_hit. by apply sublist_skip, sublist_cons.
  - rewrite replace_ds_miss by done. by apply sublist_skip.
Qed.

(** It keeps every character other than the space. *)
Lemma replace_ds_filter (P : ascii -> Prop) `{!forall c, Decision (P c)} l :
  ~ P space ->
  filter P (replace double_space single_space l) = filter P l.
Proof.
  intros Hsp. induction l as [|r IH|c r Hs IH] using replace_ds_ind.
  - done.
  - rewrite replace_ds_hit, !filter_cons.
    destruct (decide (P space)); [done|]. exact IH.
  - rewrite replace_ds_miss by done. rewrite !filter_cons.
    destruct (decide (P c)); [by rewrite IH | exact IH].
Qed.

(** The loop stops on a text without a double space and only deletes. *)
Lemma collapse_spaces_no_double l :
  contains double_space (collapse_spaces l) = false.
Proof. funelim (collapse_spaces l); done. Qed.

Lemma collapse_spaces_id l :
  contains double_space l = false -> collapse_spaces l = l.
Proof. funelim (collapse_spaces l); [congruence | done]. Qed.

Lemma collapse_spaces_sublist l : collapse_spaces l `sublist_of` l.
Proof.
  funelim (collapse_spaces l); [|done].
  etrans; [eassumption | apply replace_ds_sublist].
Qed.

Lemma collapse_spaces_filter (P : ascii -> Prop) `{!forall c, Decision (P c)} l :
  ~ P space -> filter P (collapse_spaces l) = filter P l.
Proof.
  intros Hsp. funelim (collapse_spaces l); [|done].
  rewrite H by done. by apply replace_ds_filter.
Qed.

(** The characters of the sanitized text. *)
Lemma chars_sanitize_tag s :
  chars (sanitize_tag s) = collapse_spaces (strip_invalid (chars s)).
Proof. unfold sanitize_tag. apply chars_str_of. Qed.

Lemma sanitize_tag_valid s : Forall (fun c => c ∉ invalid) (chars (sanitize_tag s)).
Proof.
  rewrite chars_sanitize_tag. apply Forall_forall. intros c Hc.
  pose proof (strip_invalid_valid (chars s)) as Hv.
  rewrite Forall_forall in Hv. apply Hv.
  eapply elem_of_sublist; [exact Hc | apply collapse_spaces_sublist].
Qed.

(** [startswith] and [contains] decide the prefix and the factor relation. *)
Lemma startswith_spec (p l : list ascii) :
  startswith p l = true <-> exists k, l = p ++ k.
Proof.
  revert l. induction p as [|a p IH]; intros [|b l]; simpl.
  - split; [by exists [] | done].
  - split; [by eexists | done].
  - split; [done | by intros [k ?]].
  - rewrite andb_true_iff, bool_decide_eq_true, IH. split.
    + intros [-> [k ->]]. by exists k.
    + intros [k [= -> ->]]. eauto.
Qed.

Lemma contains_spec (sub l : list ascii) :
  contains sub l = true <-> exists k1 k2, l = k1 ++ sub ++ k2.
Proof.
  induction l as [|b l IH].
  - simpl. rewrite orb_false_r, startswith_spec. split.
    + intros [k Hk]. by exists [], k.
    + intros (k1 & k2 & Hk). symmetry in Hk.
      apply app_eq_nil in Hk as [-> Hk]. apply app_eq_nil in Hk as [-> ->].
      by exists [].
  - change (contains sub (b :: l))
      with (startswith sub (b :: l) || contains sub l).
    rewrite orb_true_iff, startswith_spec, IH. split.
    + intros [[k Hk]|(k1 & k2 & ->)]; [by exists [], k | by exists (b :: k1), k2].
    + intros ([|c k1] & k2 & Hk); simpl in Hk.
      * left. by exists k2.
      * right. injection Hk as -> ->. by exists k1, k2.
Qed.

(** A set of valid characters without the space goes through unchanged, in
    order and number. *)
Lemma sanitize_tag_filter (P : ascii -> Prop) `{!forall c, Decision (P c)} s :
  ~ P space -> (forall c, P c -> c ∉ invalid) ->
  filter P (chars (sanitize_tag s)) = filter P (chars s).
Proof.
  intros Hsp Hv. rewrite chars_sanitize_tag, collapse_spaces_filter by done.
  rewrite strip_invalid_filter. by apply list_filter_filter_l.
Qed.

End SanitizerFacts.

(** C6. The sanitizer is idempotent: sanitizing a sanitized text gives it
    back. *)
Theorem sanitize_tag_idempotent (s : string) :
  sanitize_tag (sanitize_tag s) = sanitize_tag s.
Proof.
  unfold sanitize_tag at 1.
  rewrite strip_invalid_id by apply sanitize_tag_valid.
  rewrite collapse_spaces_id; [apply str_of_chars|].
  rewrite chars_sanitize_tag. apply collapse_spaces_no_double.
Qed.

(** C7. For every input the sanitizer keeps all occurrences of the six
    characters [- + _ : . |] (same order, same number), removes every other
    punctuation character and every tab and newline, and its output has no
    two consecutive spaces. The characters are spelled out: the six kept
    ones, and the twenty-six other characters of [string.punctuation]
    followed by the tab (code 9) and the newline (code 10); the double quote
    is the character of code 34. *)
Theorem sanitize_tag_whitelist (s : string) :
  let out := chars (sanitize_tag s) in
  let kept : list ascii := ["-"; "+"; "_"; ":"; "."; "|"]%char in
  let removed : list ascii :=
    [ "!"; "034"; "#"; "$"; "%"; "&"; "'"; "("; ")"; "*"; ","; "/"; ";"; "<";
      "="; ">"; "?"; "@"; "["; "\"; "]"; "^"; "`"; "{"; "}"; "~";
      "009"; "010" ]%char in
  filter (fun c => c ∈ kept) out = filter (fun c => c ∈ kept) (chars s)
  /\ (forall c, c ∈ kept ->
        length (filter (fun x => x = c) out)
        = length (filter (fun x => x = c) (chars s)))
  /\ (forall c, c ∈ removed -> c ∉ out)
  /\ ~ (exists k1 k2, out = k1 ++ [" "; " "]%char ++ k2).
Proof.
  intros out kept removed. pose proof (sanitize_tag_valid s) as Hv.
  rewrite Forall_forall in Hv. fold out in Hv.
  assert (Hkept : forall c, c ∈ kept -> c ∉ invalid).
  { apply Forall_forall. by_compute. }
  assert (Hremoved : forall c, c ∈ removed -> c ∈ invalid).
  { apply Forall_forall. by_compute. }
  assert (Hds : contains double_space out = false).
  { unfold out. rewrite chars_sanitize_tag. apply collapse_spaces_no_double. }
  repeat split.
  - apply sanitize_tag_filter; [by_compute | exact Hkept].
  - intros c Hc. f_equal. apply sanitize_tag_filter.
    + intros <-. revert Hc. by_compute.
    + intros x ->. by apply Hkept.
  - intros c Hr Hc. by apply (Hv c Hc), Hremoved.
  - intros Hex. apply (contains_spec double_space) in Hex. congruence.
Qed.

(** C10. The sanitized text is a subsequence of the input: every character
    of the output occurs in the input, in the same relative order, none is
    introduced; so the output is no longer than the input and the empty text
    is mapped to itself. *)
Theorem sanitize_tag_subsequence (s : string) :
  chars (sanitize_tag s) `sublist_of` chars s
  /\ (forall c, c ∈ chars (sanitize_tag s) -> c ∈ chars s)
  /\ String.length (sanitize_tag s) <= String.length s
  /\ sanitize_tag "" = "".
Proof.
  assert (Hsub : chars (sanitize_tag s) `sublist_of` chars s).
  { rewrite chars_sanitize_tag. etrans; [apply collapse_spaces_sublist|].
    rewrite strip_invalid_filter. apply sublist_filter. }
  repeat split.
  - exact Hsub.
  - intros c Hc. by eapply elem_of_sublist.
  - rewrite <- !length_chars. by apply sublist_length.
Qed.

(* ===================================================================== *)
(** * Properties of the tag parser *)
(* ===================================================================== *)

Lemma map_tag_objects_items :
  map_tag_objects =
    [ ("modality", Tag 0x0008 0x0060); ("sopInstanceUid", tag_sop);
      ("institution_name", Tag 0x0008 0x0080); ("manufacturer", Tag 0x0008 0x0070);
      ("manufacturer_model", Tag 0x0008 0x1090); ("sourceAET", tag_aet);
      ("station_name", Tag 0x0008 0x1010); ("study_description", Tag 0x0008 0x1030);
      ("study_date", Tag 0x0008 0x0020); ("study_time", Tag 0x0008 0x0030);
      ("transferSyntaxUid", tag_tsuid) ].
Proof. reflexivity. Qed.

Lemma init_header_map_items (filename : string) :
  init_header_map filename =
    [ ("filename", filename); ("modality", ""); ("sopInstanceUid", "");
      ("institution_name", ""); ("manufacturer", ""); ("manufacturer_model", "");
      ("sourceAET", ""); ("station_name", ""); ("study_description", "");
      ("study_date", ""); ("study_time", ""); ("transferSyntaxUid", "") ].
Proof. reflexivity. Qed.

(** Assigning the value a key already has changes nothing. *)
Lemma dict_set_same {V} (k : string) (v : V) (d : dict V) :
  Dict.get k d = Some v -> Dict.set k v d = d.
Proof.
  induction d as [|[k' v'] d IH]; simpl; [done|].
  destruct (decide (k = k')) as [->|]; [by intros [= ->]|].
  intros H. by rewrite IH.
Qed.

Lemma extract_attr_main san m ds e attr tag :
  attr ∉ metadata_attrs -> Dict.get attr e = Some "" ->
  extract_attr san m ds e (attr, tag) = Dict.set attr (main_value san ds tag) e.
Proof.
  intros Hn He. unfold extract_attr, main_value.
  rewrite decide_False by done.
  destruct (elements ds !! tag); [done|]. by rewrite dict_set_same.
Qed.

Lemma extract_attr_meta san m ds e attr tag :
  attr ∈ metadata_attrs ->
  extract_attr san m ds e (attr, tag) =
    match file_meta ds !! tag with
    | Some value =>
        Dict.set "transferSyntaxName" (get_default m value) (Dict.set attr value e)
    | None => e
    end.
Proof. intros Hn. unfold extract_attr. by rewrite decide_True by done. Qed.

Lemma foldl_step {A B} (f : A -> B -> A) (a : A) (x : B) (l : list B) :
  foldl f a (x :: l) = foldl f (f a x) l.
Proof. reflexivity. Qed.

Local Ltac norm_set :=
  repeat match goal with
  | |- context [Dict.set ?k ?v ?d] =>
      let r := eval vm_compute in (Dict.set k v d) in
      change (Dict.set k v d) with r
  end.

Local Ltac main_step :=
  rewrite foldl_step;
  rewrite extract_attr_main by (by_compute || (vm_compute; reflexivity));
  match goal with |- context [main_value ?san ?ds ?t] =>
    generalize (main_value san ds t); intros ? end;
  norm_set.

Local Ltac meta_step :=
  rewrite foldl_step;
  rewrite extract_attr_meta by by_compute;
  match goal with |- context [file_meta ?ds !! ?t] =>
    generalize (file_meta ds !! t); intros [?|]; cbn [default id] end;
  try match goal with |- context [get_default ?m ?v] =>
    generalize (get_default m v); intros ? end;
  norm_set.

(** The record the attribute loop leaves, written out. *)
Lemma extract_all_closed (san : bool) (m : gmap string string) (ds : Dataset)
    (filename : string) :
  extract_all san m ds (init_header_map filename) =
    [ ("filename", filename);
      ("modality", main_value san ds (Tag 0x0008 0x0060));
      ("sopInstanceUid", meta_value ds tag_sop);
      ("institution_name", main_value san ds (Tag 0x0008 0x0080));
      ("manufacturer", main_value san ds (Tag 0x0008 0x0070));
      ("manufacturer_model", main_value san ds (Tag 0x0008 0x1090));
      ("sourceAET", meta_value ds tag_aet);
      ("station_name", main_value san ds (Tag 0x0008 0x1010));
      ("study_description", main_value san ds (Tag 0x0008 0x1030));
      ("study_date", main_value san ds (Tag 0x0008 0x0020));
      ("study_time", main_value san ds (Tag 0x0008 0x0030));
      ("transferSyntaxUid", meta_value ds tag_tsuid) ]
    ++ match syntax_name m ds with
       | Some n => [("transferSyntaxName", n)]
       | None => []
       end.
Proof.
  unfold extract_all, meta_value, syntax_name.
  rewrite map_tag_objects_items, init_header_map_items.
  main_step. meta_step.
  all: main_step. all: main_step. all: main_step.
  all: meta_step.
  all: main_step. all: main_step. all: main_step. all: main_step.
  all: meta_step.
  all: reflexivity.
Qed.

Section ParserFacts.

Implicit Types (w : world) (p : Path) (paths : list Path) (san : bool).

(** One turn of the loop: the files stay as they are, and the turn appends
    the record of a readable file, keeps the list on a handled exception,
    and lets any other exception through. *)
Lemma parse_one_spec san acc p w :
  let r := parse_one san (get_transfer_syntax_map false) acc p w in
  is_dicom r.2 = is_dicom w /\ dcmread r.2 = dcmread w /\
  r.1 = match raised (is_dicom w) (dcmread w) p with
        | Some e => if handles parse_handled e then Ok acc else Raise e
        | None => Ok (acc ++ option_list
                        (record_of san p <$> readable (is_dicom w) (dcmread w) p))
        end.
Proof.
  unfold parse_one, raised, readable, record_of, try_except, bind, raise, ret,
    Logger.info, Logger.exception, modify.
  destruct (is_dicom w p) as [[|]|e] eqn:Hs; simpl.
  - destruct (dcmread w p) as [ds|e] eqn:Hr; simpl; [done|]. by destruct e.
  - done.
  - by destruct e.
Qed.

Local Opaque get_transfer_syntax_map handles parse_one.

Lemma parse_loop_spec san paths acc w :
  let r := foldM (parse_one san (get_transfer_syntax_map false)) acc paths w in
  r.1 = match first_unhandled (is_dicom w) (dcmread w) paths with
        | Some e => Raise e
        | None => Ok (acc ++ records_of (is_dicom w) (dcmread w) san paths)
        end.
Proof.
  revert acc w. induction paths as [|p ps IH]; intros acc w; simpl.
  - by rewrite app_nil_r.
  - pose proof (parse_one_spec san acc p w) as (Hi & Hd & Hr).
    unfold bind.
    destruct (parse_one san (get_transfer_syntax_map false) acc p w) as [r w'].
    simpl in Hi, Hd, Hr. subst r. unfold records_of. simpl.
    destruct (raised (is_dicom w) (dcmread w) p) as [e|] eqn:He.
    + assert (Hn : readable (is_dicom w) (dcmread w) p = None).
      { unfold raised, readable in *.
        destruct (is_dicom w p) as [[|]|]; [|done..].
        by destruct (dcmread w p). }
      rewrite Hn. simpl.
      destruct (handles parse_handled e); [|done].
      specialize (IH acc w'). simpl in IH. by rewrite IH, Hi, Hd.
    + assert (Hn : is_Some (readable (is_dicom w) (dcmread w) p)).
      { unfold raised, readable in *.
        destruct (is_dicom w p) as [[|]|]; [|done..].
        by destruct (dcmread w p). }
      destruct Hn as [ds Hn]. rewrite Hn. simpl.
      specialize (IH (acc ++ [record_of san p ds]) w'). simpl in IH.
      rewrite IH, Hi, Hd.
      destruct (first_unhandled (is_dicom w) (dcmread w) ps); [done|].
      unfold records_of. by rewrite <- app_assoc.
Qed.

Local Transparent get_transfer_syntax_map handles parse_one.

(** [parse_tags] either stops on the first unhandled exception or returns
    the records of the readable files. *)
Lemma parse_tags_spec san paths w :
  (parse_tags paths san w).1 =
    match first_unhandled (is_dicom w) (dcmread w) paths with
    | Some e => Raise e
    | None => Ok (records_of (is_dicom w) (dcmread w) san paths)
    end.
Proof. apply (parse_loop_spec san paths [] w). Qed.

Lemma first_unhandled_none isd rd paths :
  errors_handled isd rd paths = true -> first_unhandled isd rd paths = None.
Proof.
  unfold errors_handled.
  induction paths as [|p ps IH]; cbn [first_unhandled forallb]; [done|].
  intros [Hp Hps]%andb_true_iff.
  destruct (raised isd rd p) as [e|]; [rewrite Hp|]; by apply IH.
Qed.

Lemma readable_read_ok isd rd p :
  readable isd rd p = None <-> read_ok isd rd p = false.
Proof.
  unfold readable, read_ok, passes_sniff.
  destruct (isd p) as [[|]|e]; simpl; [|done..]. by destruct (rd p).
Qed.

Lemma length_records_of isd rd san paths :
  length (records_of isd rd san paths)
  = length (filter (fun p => read_ok isd rd p = true) paths).
Proof.
  unfold records_of. induction paths as [|p ps IH]; simpl; [done|].
  rewrite filter_cons. pose proof (readable_read_ok isd rd p) as Hr.
  destruct (read_ok isd rd p) eqn:Hok.
  - rewrite decide_True by done.
    destruct (readable isd rd p) as [ds|]; simpl; [f_equal; apply IH|].
    by destruct Hr as [Hr _]; specialize (Hr eq_refl).
  - rewrite decide_False by done. destruct Hr as [_ Hr]. rewrite Hr by done.
    apply IH.
Qed.

End ParserFacts.

(* ===================================================================== *)
(** * The records of the tag parser *)
(* ===================================================================== *)

Section RecordFacts.

Implicit Types (ds : Dataset) (san : bool) (m : gmap string string).

(** The keys of a record: the twelve initial ones, then
    ["transferSyntaxName"] when one of the three meta attributes was found. *)
Lemma record_keys san m ds filename :
  Dict.keys (extract_all san m ds (init_header_map filename)) =
    ["filename"] ++ Dict.keys map_tag_objects
    ++ match syntax_name m ds with
       | Some _ => ["transferSyntaxName"]
       | None => []
       end.
Proof.
  rewrite extract_all_closed. unfold Dict.keys. rewrite fmap_app.
  by destruct (syntax_name m ds).
Qed.

Lemma record_get_main san m ds filename attr tag :
  (attr, tag) ∈ map_tag_objects -> attr ∉ metadata_attrs ->
  Dict.get attr (extract_all san m ds (init_header_map filename))
  = Some (main_value san ds tag).
Proof.
  rewrite extract_all_closed, map_tag_objects_items. intros Hin Hn.
  generalize dependent (main_value san ds). intros mv.
  generalize (meta_value ds) (syntax_name m ds). intros xv sn.
  repeat (apply elem_of_cons in Hin as [[= -> ->]|Hin]);
    try reflexivity; try (exfalso; apply Hn; by_compute).
  by apply elem_of_nil in Hin.
Qed.

Lemma record_get_meta san m ds filename attr tag :
  (attr, tag) ∈ map_tag_objects -> attr ∈ metadata_attrs ->
  Dict.get attr (extract_all san m ds (init_header_map filename))
  = Some (meta_value ds tag).
Proof.
  rewrite extract_all_closed, map_tag_objects_items. intros Hin Hn.
  generalize dependent (meta_value ds). intros xv.
  generalize (main_value san ds) (syntax_name m ds). intros mv sn.
  repeat (apply elem_of_cons in Hin as [[= -> ->]|Hin]);
    try reflexivity;
    try (exfalso; revert Hn; eapply bool_decide_eq_false_1; vm_compute; reflexivity).
  by apply elem_of_nil in Hin.
Qed.

Lemma record_get_syntax_name san m ds filename :
  Dict.get "transferSyntaxName" (extract_all san m ds (init_header_map filename))
  = syntax_name m ds.
Proof.
  rewrite extract_all_closed.
  generalize (main_value san ds) (meta_value ds). intros mv xv.
  by destruct (syntax_name m ds).
Qed.

Lemma gmap_of_pairs_absent (pairs : list (string * string)) (k : string) :
  k ∉ pairs.*1 -> gmap_of_pairs pairs !! k = None.
Proof.
  unfold gmap_of_pairs.
  assert (H : forall acc : gmap string string, k ∉ pairs.*1 ->
            foldl (fun m kv => <[kv.1 := kv.2]> m) acc pairs !! k = acc !! k).
  { induction pairs as [|[k' v] pairs IH]; intros acc Hk; simpl; [done|].
    rewrite fmap_cons, not_elem_of_cons in Hk. destruct Hk as [Hne Hk].
    rewrite IH by done. by rewrite lookup_insert_ne. }
  intros Hk. by rewrite H.
Qed.

End RecordFacts.

(** C8. Looking up ["1.2.840.10008.1.2.1"] in the transfer syntax map gives
    ["ExplicitVRLittleEndian"]; an identifier that is not one of the ten
    known ones gives the empty text; and a record whose file has a transfer
    syntax identifier gets the looked-up name as ["transferSyntaxName"]. *)
Theorem transfer_syntax_resolution :
  get_default (get_transfer_syntax_map false) "1.2.840.10008.1.2.1"
    = "ExplicitVRLittleEndian"
  /\ length transfer_syntax_pairs = 10
  /\ (forall uid, uid ∉ transfer_syntax_pairs.*1 ->
        get_default (get_transfer_syntax_map false) uid = "")
  /\ (forall san ds filename uid,
        file_meta ds !! tag_tsuid = Some uid ->
        Dict.get "transferSyntaxName"
          (extract_all san (get_transfer_syntax_map false) ds
             (init_header_map filename))
        = Some (get_default (get_transfer_syntax_map false) uid)).
Proof.
  split; [by vm_compute|]. split; [done|]. split.
  - intros uid Hu. unfold get_default, get_transfer_syntax_map.
    by rewrite gmap_of_pairs_absent.
  - intros san ds filename uid Hu. rewrite record_get_syntax_name.
    unfold syntax_name. by rewrite Hu.
Qed.

Lemma transfer_syntax_resolution_witness :
  get_default (get_transfer_syntax_map false) "1.2.840.113619.5.2" = ""
  /\ Dict.get "transferSyntaxName"
       (extract_all false (get_transfer_syntax_map false)
          {| file_meta := {[ tag_tsuid := "1.2.840.10008.1.2.1" ]};
             elements := ∅; ds_text := "" |}
          (init_header_map "a.dcm"))
     = Some (get_default (get_transfer_syntax_map false) "1.2.840.10008.1.2.1").
Proof.
  split.
  - apply transfer_syntax_resolution.
    eapply bool_decide_eq_true_1. vm_compute. reflexivity.
  - apply transfer_syntax_resolution. vm_compute. reflexivity.
Defined.

(** C3, at the failing input. A file that passes the sniff and whose meta
    group holds none of the three attributes gives a record of twelve keys
    without ["transferSyntaxName"], and the table made of it has no such
    column. *)
Theorem record_without_syntax_name :
  (parse_tags [Scenario.a_dcm] false Scenario.w_no_meta).1
  = Ok [ [ ("filename", "a.dcm"); ("modality", "CT"); ("sopInstanceUid", "");
           ("institution_name", ""); ("manufacturer", "");
           ("manufacturer_model", ""); ("sourceAET", ""); ("station_name", "");
           ("study_description", ""); ("study_date", ""); ("study_time", "");
           ("transferSyntaxUid", "") ] ]
  /\ Dict.get "transferSyntaxName"
       (record_of false Scenario.a_dcm Scenario.ds_no_meta) = None
  /\ (extract_to_df [Scenario.a_dcm] Scenario.w_no_meta).1
     = Ok (Some
         {| columns :=
              [ "filename"; "modality"; "sopInstanceUid"; "institution_name";
                "manufacturer"; "manufacturer_model"; "sourceAET";
                "station_name"; "study_description"; "study_date";
                "study_time"; "transferSyntaxUid"; "extract_date" ];
            rows :=
              [ [ Some "a.dcm"; Some "CT"; Some ""; Some ""; Some ""; Some "";
                  Some ""; Some ""; Some ""; Some ""; Some ""; Some "";
                  Some "2024-05-01 12:00:00" ] ] |}).
Proof. repeat split; vm_compute; reflexivity. Qed.

Lemma record_of_sanitized (san : bool) (p : Path) (ds : Dataset) :
  sanitized_where_due san ds (record_of san p ds).
Proof.
  split; intros attr tag Hin Hm.
  - by apply record_get_main.
  - by apply record_get_meta.
Qed.

Lemma records_of_readable isd rd san paths rec :
  rec ∈ records_of isd rd san paths ->
  exists p ds, p ∈ paths /\ isd p = Ok true /\ rd p = Ok ds
               /\ rec = record_of san p ds.
Proof.
  unfold records_of. rewrite list_elem_of_omap. intros (p & Hp & Hr).
  apply fmap_Some in Hr as (ds & Hd & ->). exists p, ds.
  unfold readable in Hd.
  destruct (isd p) as [[|]|]; [|done..].
  destruct (rd p) as [ds'|]; [|discriminate Hd].
  injection Hd as ->. auto.
Qed.

(** C4, as the code has it. With the switch on, the parser sanitizes the
    values of the attributes read from the main data set; the three
    attributes read from the file meta group ([sopInstanceUid], [sourceAET],
    [transferSyntaxUid]) are stored as read. With the switch off no value is
    altered. *)
Theorem sanitize_values_scope (san : bool) (w : world) (paths : list Path)
    (recs : list (dict string)) :
  (parse_tags paths san w).1 = Ok recs ->
  Forall (fun rec => exists p ds, p ∈ paths /\ dcmread w p = Ok ds
                                  /\ sanitized_where_due san ds rec) recs.
Proof.
  rewrite parse_tags_spec.
  destruct (first_unhandled (is_dicom w) (dcmread w) paths); [done|].
  intros [= <-]. apply Forall_forall. intros rec Hrec.
  apply records_of_readable in Hrec as (p & ds & Hp & _ & Hd & ->).
  exists p, ds. split; [done|]. split; [done|]. apply record_of_sanitized.
Qed.

Lemma sanitize_values_scope_witness :
  Forall (fun rec => exists p ds, p ∈ [Scenario.a_dcm]
                       /\ dcmread Scenario.w_punct p = Ok ds
                       /\ sanitized_where_due true ds rec)
    [ record_of true Scenario.a_dcm Scenario.ds_punct ].
Proof.
  apply (sanitize_values_scope true Scenario.w_punct [Scenario.a_dcm]).
  vm_compute. reflexivity.
Defined.

(** C4, read literally, fails: with the switch on, the [sourceAET] of a file
    is stored with its comma although the sanitizer would remove it, while
    the institution name of the same file is sanitized. *)
Lemma metadata_not_sanitized :
  (parse_tags [Scenario.a_dcm] true Scenario.w_punct).1
  = Ok [ [ ("filename", "a.dcm"); ("modality", ""); ("sopInstanceUid", "");
           ("institution_name", "St. Marys Hospital"); ("manufacturer", "");
           ("manufacturer_model", ""); ("sourceAET", "ARCHIVE,1");
           ("station_name", ""); ("study_description", ""); ("study_date", "");
           ("study_time", ""); ("transferSyntaxUid", "");
           ("transferSyntaxName", "") ] ]
  /\ file_meta Scenario.ds_punct !! tag_aet = Some "ARCHIVE,1"
  /\ sanitize_tag "ARCHIVE,1" = "ARCHIVE1"
  /\ bool_decide (sanitize_tag "ARCHIVE,1" = "ARCHIVE,1") = false.
Proof. repeat split; vm_compute; reflexivity. Qed.

(** The errors of one file the claim speaks of, spelled out: [OSError] with
    its subclasses [PermissionError] and [FileNotFoundError], [ValueError]
    with its subclass [UnicodeEncodeError], [KeyError] and
    [InvalidDicomError]. *)
Definition per_file_error (e : exn) : bool :=
  match e with
  | OSError | PermissionError | FileNotFoundError
  | ValueError | UnicodeEncodeError
  | KeyError | InvalidDicomError => true
  | DtypeWarning | AttributeError | TypeError | UnboundLocalError => false
  end.

(** The first exception met on the files, in the order of the paths, that is
    not such an error. *)
Fixpoint first_fatal (isd : Path -> result bool) (rd : Path -> result Dataset)
    (paths : list Path) : option exn :=
  match paths with
  | [] => None
  | p :: ps =>
      match raised isd rd p with
      | Some e => if per_file_error e then first_fatal isd rd ps else Some e
      | None => first_fatal isd rd ps
      end
  end.

(** Two files that pass the sniff: reading the first raises [TypeError], the
    second is readable. *)
Definition w_type_error : world :=
  Scenario.machine
    [(Scenario.a_dcm, File "DICM"); (Scenario.b_dcm, File "DICM")]
    (fun _ => Ok true)
    (fun p => if decide (p = Scenario.a_dcm) then Raise TypeError
              else Ok Scenario.ds_punct)
    Scenario.no_fault.

Lemma per_file_error_handles (e : exn) :
  handles parse_handled e = per_file_error e.
Proof. by destruct e. Qed.

Lemma first_fatal_unhandled isd rd (paths : list Path) :
  first_unhandled isd rd paths = first_fatal isd rd paths.
Proof.
  induction paths as [|p ps IH]; cbn [first_unhandled first_fatal]; [done|].
  destruct (raised isd rd p) as [e|]; [|done].
  rewrite per_file_error_handles. by destruct (per_file_error e).
Qed.

(** C5, as the code has it, for every list of paths and every behaviour of
    pydicom. If an exception other than a per-file error is met, the first
    such exception leaves [parse_tags]: the batch is aborted and no record is
    returned. Otherwise [parse_tags] returns, and it returns the records of
    the files that pass the sniff and are then read without error, in the
    order of the paths, those after a failing file included; their number
    is the number of such files. *)
Theorem parse_tags_count (san : bool) (w : world) (paths : list Path) :
  match first_fatal (is_dicom w) (dcmread w) paths with
  | Some e => (parse_tags paths san w).1 = Raise e
  | None =>
      (parse_tags paths san w).1
      = Ok (records_of (is_dicom w) (dcmread w) san paths)
      /\ length (records_of (is_dicom w) (dcmread w) san paths)
         = length (filter (fun p => read_ok (is_dicom w) (dcmread w) p = true)
                     paths)
  end.
Proof.
  rewrite <- first_fatal_unhandled, parse_tags_spec.
  destruct (first_unhandled (is_dicom w) (dcmread w) paths); [done|].
  split; [done|apply length_records_of].
Qed.

Lemma parse_tags_count_witness :
  (parse_tags [Scenario.a_dcm; Scenario.b_dcm; Scenario.c_dcm] false
     Scenario.w_abc).1
  = Ok (records_of (is_dicom Scenario.w_abc) (dcmread Scenario.w_abc) false
          [Scenario.a_dcm; Scenario.b_dcm; Scenario.c_dcm])
  /\ length (records_of (is_dicom Scenario.w_abc) (dcmread Scenario.w_abc) false
               [Scenario.a_dcm; Scenario.b_dcm; Scenario.c_dcm])
     = length (filter (fun p => read_ok (is_dicom Scenario.w_abc)
                                  (dcmread Scenario.w_abc) p = true)
                 [Scenario.a_dcm; Scenario.b_dcm; Scenario.c_dcm]).
Proof.
  exact (parse_tags_count false Scenario.w_abc
           [Scenario.a_dcm; Scenario.b_dcm; Scenario.c_dcm]).
Defined.

(** C5, read literally, fails twice. A file that passes the sniff and then
    cannot be parsed gives no record, so one file passes the sniff and no
    record is returned. And an exception that is not a per-file error aborts
    the batch: with [TypeError] on the first file nothing is returned and
    nothing is logged, although the second file is readable. *)
Lemma sniffed_file_without_record :
  ((parse_tags [Scenario.a_dcm] false Scenario.w_corrupt).1 = Ok []
   /\ length (filter (fun p => passes_sniff (is_dicom Scenario.w_corrupt) p = true)
                [Scenario.a_dcm]) = 1)
  /\ ((parse_tags [Scenario.a_dcm; Scenario.b_dcm] false w_type_error).1
        = Raise TypeError
      /\ log (parse_tags [Scenario.a_dcm; Scenario.b_dcm] false w_type_error).2 = []
      /\ read_ok (is_dicom w_type_error) (dcmread w_type_error) Scenario.b_dcm
         = true
      /\ length (filter (fun p => passes_sniff (is_dicom w_type_error) p = true)
                   [Scenario.a_dcm; Scenario.b_dcm]) = 2).
Proof. repeat split; vm_compute; reflexivity. Qed.

(* ===================================================================== *)
(** * The writer and the orchestrator *)
(* ===================================================================== *)

Section WriterFacts.

Implicit Types (w : world) (dst : Path).

Local Opaque handles.

Local Ltac run_writer :=
  unfold write_to_file, with_locals, try_except, bind, ret, raise, when,
    set_local, read_local, get_local, on_world, gets, method_of, FS.unlink,
    FS.write_text, Logger.info, Logger.exception, modify; cbn [json_path
    csv_path set_json_path set_csv_path fst snd].

(** Without a table the writer never returns: looking up [to_json] on [None]
    raises [AttributeError], which no handler of the writer takes; an
    exception met before that, while deleting the old JSON file, does not
    return either. *)
Lemma write_to_file_none_raises dst w :
  is_ok (write_to_file None dst w).1 = false.
Proof.
  run_writer.
  destruct (FS.is_file w _); cbn; [|done].
  destruct (fault w _) as [e|]; cbn.
  - by destruct (handles write_handled e).
  - by destruct (FS.lookup_path _ _) as [[|]|].
Qed.

Lemma write_to_file_none_attribute_error dst w :
  FS.is_file w (joinpath dst (MODULE +:+ ".json")) = false ->
  (write_to_file None dst w).1 = Raise AttributeError.
Proof. intros H. run_writer. by rewrite H. Qed.

(** A handled exception raised while the JSON file is written reaches the
    handler before [csv_path] is assigned. *)
Lemma write_to_file_json_failure df dst w e :
  FS.is_file w (joinpath dst (MODULE +:+ ".json")) = false ->
  fault w (OpWrite (FS.absolute w (joinpath dst (MODULE +:+ ".json")))) = Some e ->
  handles write_handled e = true ->
  (write_to_file (Some df) dst w).1 = Raise UnboundLocalError.
Proof.
  intros Hf He Hh. run_writer. rewrite Hf. cbn. rewrite He. cbn.
  by rewrite Hh.
Qed.

(** With no file found, the tabulator has nothing to write. *)
Lemma extract_to_df_nil w : (extract_to_df [] w).1 = Ok None.
Proof. reflexivity. Qed.

(** The run stops in the writer whenever discovery finds no file. *)
Lemma run_pipeline_no_files args w :
  (find_dicom (input_path args) ".dcm" false w).1 = Ok [] ->
  is_ok (run_pipeline args w).1 = false.
Proof.
  unfold run_pipeline. unfold bind at 1.
  destruct (find_dicom (input_path args) ".dcm" false w) as [r w1].
  cbn [fst]. intros ->. unfold bind at 1.
  change (extract_to_df [] w1) with (Ok (@None DataFrame), w1).
  cbn beta iota. unfold bind at 1.
  pose proof (write_to_file_none_raises (output_path args) w1) as Hw.
  destruct (write_to_file None (output_path args) w1) as [[b|e] w2]; [done|].
  reflexivity.
Qed.

Local Transparent handles.

End WriterFacts.

(** C1, at the failing input. With an empty input directory and the
    artifacts of an earlier run in the output directory, the run ends with an
    uncaught [AttributeError] raised in the writer; the old JSON file has
    been deleted, the old CSV file is still there, the dumper has not run and
    the only log entry is the count of files found. The run ends the same
    way when a file is found and none can be parsed. *)
Theorem pipeline_crashes_on_empty_input :
  let r := run_pipeline Scenario.args Scenario.w_no_input in
  (find_dicom Scenario.input_dir ".dcm" false Scenario.w_no_input).1 = Ok []
  /\ (extract_to_df [] Scenario.w_no_input).1 = Ok None
  /\ r.1 = Raise AttributeError
  /\ fs r.2 = Scenario.empty_dirs ++ [(Scenario.old_csv, File "filename")]
  /\ log r.2 = [(INFO, "found (0) '.dcm' files recursive=False)")]
  /\ (run_pipeline Scenario.args Scenario.w_corrupt).1 = Raise AttributeError.
Proof. repeat split; vm_compute; reflexivity. Qed.

(** C2, at the failing input. When the operating system answers the write
    of the JSON file with [PermissionError], the handler of the writer reads
    [csv_path], which is not assigned yet, and [UnboundLocalError] leaves
    [write_to_file]; nothing is logged. The same refusal for the CSV file is
    handled: it is logged and the writer returns [False]. *)
Theorem writer_json_failure_escapes :
  let r := write_to_file (Some Scenario.one_row) Scenario.output_dir
             Scenario.w_json_denied in
  let r' := write_to_file (Some Scenario.one_row) Scenario.output_dir
              Scenario.w_csv_denied in
  fault Scenario.w_json_denied (OpWrite Scenario.old_json) = Some PermissionError
  /\ handles write_handled PermissionError = true
  /\ r.1 = Raise UnboundLocalError
  /\ log r.2 = []
  /\ r'.1 = Ok false
  /\ log r'.2 = [ (INFO, "output/export_dicom_tags.json");
                  (ERROR, "output/export_dicom_tags.csv") ].
Proof. repeat split; vm_compute; reflexivity. Qed.

(* ===================================================================== *)
(** * File discovery *)
(* ===================================================================== *)

Section PathOrder.

Implicit Types (a b c : string) (p q r : Path).

Lemma str_compare_refl a : String.compare a a = Eq.
Proof.
  induction a as [|x a IH]; simpl; [done|].
  assert (Ascii.compare x x = Eq) as ->; [|done].
  unfold Ascii.compare. apply N.compare_refl.
Qed.

Lemma str_compare_lt_le a b : String.compare a b = Lt -> String.le a b.
Proof. unfold String.le, String.leb. by intros ->. Qed.

Lemma str_compare_lt_trans a b c :
  String.compare a b = Lt -> String.compare b c = Lt -> String.compare a c = Lt.
Proof.
  intros Hab Hbc.
  assert (Hac : String.le a c).
  { etrans; by apply str_compare_lt_le. }
  unfold String.le, String.leb in Hac.
  destruct (String.compare a c) eqn:Hc; [|done..].
  apply String.compare_eq_iff in Hc as ->.
  rewrite String.compare_antisym, Hbc in Hab. done.
Qed.

Lemma path_leb_refl p : path_leb p p = true.
Proof. induction p as [|a p IH]; simpl; [done|]. by rewrite str_compare_refl. Qed.

Global Instance path_le_trans : Transitive path_le.
Proof.
  unfold path_le. intros p. induction p as [|a p IH]; intros [|b q] [|c r];
    simpl; try done.
  destruct (String.compare a b) eqn:Hab; [| |done].
  - apply String.compare_eq_iff in Hab as ->.
    destruct (String.compare b c); [apply IH|done..].
  - destruct (String.compare b c) eqn:Hbc; [| |done]; intros _ _.
    + apply String.compare_eq_iff in Hbc as ->. by rewrite Hab.
    + by rewrite (str_compare_lt_trans a b c).
Qed.

Global Instance path_le_total : Total path_le.
Proof.
  unfold path_le. intros p. induction p as [|a p IH]; intros [|b q]; simpl; auto.
  rewrite (String.compare_antisym b a).
  destruct (String.compare a b); simpl; auto.
Qed.

(** A common prefix does not change the order. *)
Lemma path_leb_app pre p q : path_leb (pre ++ p) (pre ++ q) = path_leb p q.
Proof. induction pre as [|a pre IH]; simpl; [done|]. by rewrite str_compare_refl. Qed.

Lemma sorted_StronglySorted (l : list Path) : StronglySorted path_le (sorted l).
Proof. apply StronglySorted_merge_sort; apply _. Qed.

Lemma sorted_elem_of (l : list Path) p : p ∈ sorted l <-> p ∈ l.
Proof. unfold sorted. by rewrite merge_sort_Permutation. Qed.

Lemma StronglySorted_filter {A} (R : relation A) (P : A -> Prop)
    `{!forall x, Decision (P x)} (l : list A) :
  StronglySorted R l -> StronglySorted R (filter P l).
Proof.
  induction 1 as [|x l Hl IH Hx]; [constructor|].
  rewrite filter_cons. destruct (decide (P x)); [|done].
  constructor; [done|]. apply Forall_forall. intros y Hy%list_elem_of_filter.
  rewrite Forall_forall in Hx. apply Hx. tauto.
Qed.

End PathOrder.

Section DiscoveryFacts.

Implicit Types (w : world) (p q src : Path) (ext suffix n : string).

Lemma strip_prefix_spec (pre q r : Path) :
  FS.strip_prefix pre q = Some r <-> q = pre ++ r.
Proof.
  revert q. induction pre as [|a pre IH]; intros [|b q]; simpl.
  - split; by intros [= <-].
  - split; [by intros [= <-] | by intros <-].
  - split; [done | by intros [=]].
  - destruct (decide (a = b)) as [->|Hne].
    + rewrite IH. split; [by intros -> | by intros [= ->]].
    + split; [done | intros [= ? ?]; by subst].
Qed.

Lemma name_app_cons (l : Path) n (rest : Path) :
  name (l ++ n :: rest) = name (n :: rest).
Proof. unfold name. by rewrite last_app_cons. Qed.

Lemma glob_spec w src suffix p :
  p ∈ FS.glob w src suffix <-> below w src suffix false p.
Proof.
  unfold FS.glob, below. rewrite list_elem_of_omap. split.
  - intros ([q nd] & Hq & Hm). simpl in Hm.
    destruct (FS.strip_prefix (FS.absolute w src) q) as [[|n [|? ?]]|] eqn:Hs;
      try done.
    destruct (endswith n suffix) eqn:He; [|done]. injection Hm as <-.
    apply strip_prefix_spec in Hs as ->.
    exists n, []. repeat split; [|done]. apply list_elem_of_fmap.
    by exists (FS.absolute w src ++ [n], nd).
  - intros (n & rest & -> & Hr & Hin & He). rewrite (Hr eq_refl) in *.
    apply list_elem_of_fmap in Hin as ([q nd] & Hq & Hin). simpl in Hq. subst q.
    exists (FS.absolute w src ++ [n], nd). split; [done|]. simpl.
    assert (FS.strip_prefix (FS.absolute w src) (FS.absolute w src ++ [n])
            = Some [n]) as -> by by apply strip_prefix_spec.
    change (name [n]) with n in He. by rewrite He.
Qed.

Lemma rglob_spec w src suffix p :
  p ∈ FS.rglob w src suffix <-> below w src suffix true p.
Proof.
  unfold FS.rglob, below. rewrite list_elem_of_omap. split.
  - intros ([q nd] & Hq & Hm). simpl in Hm.
    destruct (FS.strip_prefix (FS.absolute w src) q) as [[|n rest]|] eqn:Hs;
      try done.
    destruct (endswith (name (n :: rest)) suffix) eqn:He; [|done].
    injection Hm as <-. apply strip_prefix_spec in Hs as ->.
    exists n, rest. repeat split; [done| |done]. apply list_elem_of_fmap.
    by exists (FS.absolute w src ++ n :: rest, nd).
  - intros (n & rest & -> & _ & Hin & He).
    apply list_elem_of_fmap in Hin as ([q nd] & Hq & Hin). simpl in Hq. subst q.
    exists (FS.absolute w src ++ n :: rest, nd). split; [done|]. simpl.
    assert (FS.strip_prefix (FS.absolute w src) (FS.absolute w src ++ n :: rest)
            = Some (n :: rest)) as -> by by apply strip_prefix_spec.
    by rewrite He.
Qed.

Lemma absolute_is_absolute w p : is_absolute (FS.absolute w p) = true.
Proof.
  unfold FS.absolute. by destruct (is_absolute p) eqn:Hp.
Qed.

Lemma absolute_idemp w p : FS.absolute w (FS.absolute w p) = FS.absolute w p.
Proof. unfold FS.absolute at 1. by rewrite absolute_is_absolute. Qed.

Lemma is_file_absolute w p : FS.is_file w (FS.absolute w p) = FS.is_file w p.
Proof. unfold FS.is_file, FS.stat. by rewrite absolute_idemp. Qed.

Lemma absolute_anchor w src : FS.absolute w src = anchor w src ++ src.
Proof. unfold FS.absolute, anchor. by destruct (is_absolute src). Qed.

Lemma absolute_below w src n (rest : Path) :
  fs_names_ok w = true ->
  FS.absolute w src ++ n :: rest ∈ (fs w).*1 ->
  FS.absolute w (src ++ n :: rest) = anchor w src ++ src ++ n :: rest.
Proof.
  intros Hok Hin. destruct src as [|r s].
  - unfold anchor, FS.absolute in *. simpl in *.
    assert (Hn : n <> root).
    { apply list_elem_of_fmap in Hin as (e & He & Hin).
      unfold fs_names_ok in Hok. rewrite forallb_forall in Hok.
      apply list_elem_of_In, Hok in Hin. apply negb_true_iff in Hin.
      apply bool_decide_eq_false in Hin. intros ->. apply Hin.
      rewrite <- He. simpl. rewrite app_nil_r. set_solver. }
    by rewrite bool_decide_eq_false_2.
  - unfold anchor, FS.absolute. simpl. by destruct (bool_decide (r = root)).
Qed.

End DiscoveryFacts.

Section DiscoveryClaims.

Implicit Types (w : world) (p src : Path) (ext : string).

(** What [find_dicom] returns. *)
Lemma find_dicom_result w src ext (recursive : bool) :
  (find_dicom src ext recursive w).1 =
    Ok (if FS.is_dir w src && bool_decide (lower ext ∈ allowed_ext) then
          FS.absolute w <$>
            filter (fun p => FS.is_file w p)
              (sorted ((if recursive then FS.rglob w src else FS.glob w src) ext))
        else []).
Proof. reflexivity. Qed.

Lemma found_spec w src ext (recursive : bool) p :
  p ∈ (if recursive then FS.rglob w src else FS.glob w src) ext
  <-> below w src ext recursive p.
Proof. destruct recursive; [apply rglob_spec | apply glob_spec]. Qed.

Lemma candidates_spec w src ext (recursive : bool) p :
  p ∈ filter (fun p => FS.is_file w p)
        (sorted ((if recursive then FS.rglob w src else FS.glob w src) ext))
  <-> below w src ext recursive p /\ FS.is_file w p = true.
Proof.
  rewrite list_elem_of_filter, sorted_elem_of, found_spec, Is_true_true. tauto.
Qed.

Lemma below_absolute w src ext (recursive : bool) p :
  fs_names_ok w = true -> below w src ext recursive p ->
  FS.absolute w p = anchor w src ++ p
  /\ endswith (name (FS.absolute w p)) ext = true.
Proof.
  intros Hok (n & rest & -> & _ & Hin & He).
  rewrite (absolute_below w src n rest Hok Hin). split; [done|].
  by rewrite app_assoc, name_app_cons.
Qed.

End DiscoveryClaims.

(** C9, as the code has it. On a file system where nothing is named ["/"],
    [find_dicom] returns without raising: its list is sorted
    lexicographically by path parts, holds absolute paths of regular files
    whose name ends with the selector, and holds every such file below the
    source directory (directly below it unless the search is recursive). The
    list is empty when the source is not a directory or the lower-cased
    selector is not one of [.dcm], [.dicom], [.gz], [.nii]. *)
Theorem find_dicom_spec (w : world) (src : Path) (ext : string) (recursive : bool) :
  fs_names_ok w = true ->
  exists paths,
    (find_dicom src ext recursive w).1 = Ok paths
    /\ StronglySorted path_le paths
    /\ Forall (fun p => is_absolute p = true /\ FS.is_file w p = true
                         /\ endswith (name p) ext = true) paths
    /\ (FS.is_dir w src = false \/ lower ext ∉ allowed_ext -> paths = [])
    /\ (FS.is_dir w src = true -> lower ext ∈ allowed_ext ->
        forall p, below w src ext recursive p -> FS.is_file w p = true ->
                  FS.absolute w p ∈ paths).
Proof.
  intros Hok. eexists. split; [apply find_dicom_result|].
  destruct (FS.is_dir w src && bool_decide (lower ext ∈ allowed_ext)) eqn:Hc.
  - apply andb_true_iff in Hc as [Hd He]. apply bool_decide_eq_true in He.
    set (L := filter (fun p => FS.is_file w p)
                (sorted ((if recursive then FS.rglob w src else FS.glob w src) ext))).
    assert (HL : forall p, p ∈ L ->
              FS.absolute w p = anchor w src ++ p
              /\ endswith (name (FS.absolute w p)) ext = true
              /\ FS.is_file w p = true).
    { intros p [Hb Hf]%candidates_spec.
      destruct (below_absolute w src ext recursive p Hok Hb). auto. }
    repeat split.
    + assert (FS.absolute w <$> L = (fun p => anchor w src ++ p) <$> L) as ->.
      { apply Forall_fmap_ext_1, Forall_forall. intros p Hp. by apply HL. }
      apply (StronglySorted_fmap _ path_le path_le).
      * intros p q. unfold path_le. by rewrite path_leb_app.
      * apply StronglySorted_filter, sorted_StronglySorted.
    + apply Forall_forall. intros q (p & -> & Hp)%list_elem_of_fmap.
      destruct (HL p Hp) as (_ & Hn & Hf).
      by rewrite absolute_is_absolute, is_file_absolute.
    + intros [Hd'|He']; [congruence | done].
    + intros _ _ p Hb Hf. apply list_elem_of_fmap. exists p. split; [done|].
      by apply candidates_spec.
  - repeat split; try done; [constructor|].
    intros Hd He. rewrite Hd, bool_decide_eq_true_2 in Hc; done.
Qed.

Lemma find_dicom_spec_witness :
  exists paths,
    (find_dicom Scenario.input_dir ".dcm" false Scenario.w_upper).1 = Ok paths
    /\ StronglySorted path_le paths
    /\ Forall (fun p => is_absolute p = true
                         /\ FS.is_file Scenario.w_upper p = true
                         /\ endswith (name p) ".dcm" = true) paths
    /\ (FS.is_dir Scenario.w_upper Scenario.input_dir = false
        \/ lower ".dcm" ∉ allowed_ext -> paths = [])
    /\ (FS.is_dir Scenario.w_upper Scenario.input_dir = true ->
        lower ".dcm" ∈ allowed_ext ->
        forall p, below Scenario.w_upper Scenario.input_dir ".dcm" false p ->
                  FS.is_file Scenario.w_upper p = true ->
                  FS.absolute Scenario.w_upper p ∈ paths).
Proof.
  apply (find_dicom_spec Scenario.w_upper Scenario.input_dir ".dcm" false).
  vm_compute. reflexivity.
Defined.

(** C9, read literally, fails: the selector [.DCM] is not one of the four
    and still selects the files whose name ends with [.DCM], because only
    its lower-cased form is compared with the four. *)
Lemma upper_case_selector_accepted :
  (find_dicom Scenario.input_dir ".DCM" false Scenario.w_upper).1
  = Ok [ Scenario.input_dir ++ ["A.DCM"]; Scenario.input_dir ++ ["B.DCM"] ]
  /\ bool_decide (".DCM" ∈ allowed_ext) = false
  /\ bool_decide (lower ".DCM" ∈ allowed_ext) = true.
Proof. repeat split; vm_compute; reflexivity. Qed.

(* ===================================================================== *)
(** * Further properties of the sanitizer *)
(* ===================================================================== *)

Section SanitizerMore.

Implicit Types (l : list ascii) (c : ascii) (s : string).

Lemma replace_ds_keeps_space l :
  space ∈ l -> space ∈ replace double_space single_space l.
Proof.
  induction l as [|r IH|c r Hs IH] using replace_ds_ind; intros Hin.
  - done.
  - rewrite replace_ds_hit. by left.
  - rewrite replace_ds_miss by done.
    apply elem_of_cons in Hin as [<-|Hin]; [by left | right; auto].
Qed.

Lemma collapse_spaces_keeps_space l :
  space ∈ l -> space ∈ collapse_spaces l.
Proof.
  funelim (collapse_spaces l); [|done].
  intros Hsp. by apply H, replace_ds_keeps_space.
Qed.

End SanitizerMore.

(** X1. The texts the sanitizer leaves unchanged are exactly those that
    hold none of the twenty-eight characters it removes (the punctuation
    other than [- + _ : . |], spelled out, then the tab, code 9, and the
    newline, code 10; the double quote is the character of code 34) and no
    two consecutive spaces. *)
Theorem sanitize_tag_fixed_points (s : string) :
  let removed : list ascii :=
    [ "!"; "034"; "#"; "$"; "%"; "&"; "'"; "("; ")"; "*"; ","; "/"; ";"; "<";
      "="; ">"; "?"; "@"; "["; "\"; "]"; "^"; "`"; "{"; "}"; "~";
      "009"; "010" ]%char in
  sanitize_tag s = s <->
  Forall (fun c => c ∉ removed) (chars s)
  /\ ~ (exists k1 k2, chars s = k1 ++ [" "; " "]%char ++ k2).
Proof.
  intros removed.
  assert (Hinv : invalid = removed) by (vm_compute; reflexivity).
  rewrite <- Hinv. clear Hinv removed.
  assert (Hds : forall l : list ascii,
            ~ (exists k1 k2, l = k1 ++ [" "; " "]%char ++ k2)
            <-> contains double_space l = false).
  { intros l. pose proof (contains_spec double_space l) as Hc.
    destruct (contains double_space l).
    - split; [|done]. intros Hn. destruct Hn. by apply Hc.
    - split; [done|]. intros _ Hex. apply Hc in Hex. done. }
  rewrite Hds. split.
  - intros Hs. split.
    + rewrite <- Hs. apply sanitize_tag_valid.
    + rewrite <- Hs, chars_sanitize_tag. apply collapse_spaces_no_double.
  - intros [Hv Hd]. unfold sanitize_tag.
    by rewrite strip_invalid_id, collapse_spaces_id, str_of_chars.
Qed.

(** X2. Every character that is neither invalid nor the space (letters,
    digits, the six kept punctuation marks, any byte of a non-ASCII
    character) goes through the sanitizer: the output holds the same such
    characters as the input, in the same order. *)
Theorem sanitize_tag_keeps_valid (s : string) :
  filter (fun c => (c ∉ invalid) /\ c <> space) (chars (sanitize_tag s))
  = filter (fun c => (c ∉ invalid) /\ c <> space) (chars s).
Proof. apply sanitize_tag_filter; [by intros [_ ?] | by intros c [? _]]. Qed.

(** X3. The sanitized text is empty exactly when every character of the
    input is invalid; in particular a text with a space or a letter never
    becomes empty. *)
Theorem sanitize_tag_empty (s : string) :
  sanitize_tag s = "" <-> Forall (fun c => c ∈ invalid) (chars s).
Proof.
  split.
  - intros Hs. apply Forall_forall. intros c Hc.
    destruct (decide (c ∈ invalid)) as [|Hv]; [done|exfalso].
    assert (Hin : c ∈ strip_invalid (chars s)).
    { rewrite strip_invalid_filter. by apply list_elem_of_filter. }
    assert (Hout : chars (sanitize_tag s) = []) by by rewrite Hs.
    rewrite chars_sanitize_tag in Hout.
    destruct (decide (c = space)) as [->|Hsp].
    + apply collapse_spaces_keeps_space in Hin. rewrite Hout in Hin.
      by apply elem_of_nil in Hin.
    + assert (Hf : c ∈ filter (fun x => x = c) (strip_invalid (chars s))).
      { by apply list_elem_of_filter. }
      rewrite <- (collapse_spaces_filter (fun x => x = c)) in Hf by (by intros <-).
      rewrite Hout in Hf. by apply elem_of_nil in Hf.
  - intros Hall. unfold sanitize_tag. rewrite strip_invalid_filter.
    assert (filter (fun c => c ∉ invalid) (chars s) = []) as ->; [|done].
    induction Hall as [|c l Hc _ IH]; [done|].
    rewrite filter_cons. by destruct (decide (c ∉ invalid)).
Qed.

(* ===================================================================== *)
(** * Further properties of the tag parser *)
(* ===================================================================== *)

(** The twelve keys every record starts with. *)
Definition base_columns : list string :=
  [ "filename"; "modality"; "sopInstanceUid"; "institution_name"; "manufacturer";
    "manufacturer_model"; "sourceAET"; "station_name"; "study_description";
    "study_date"; "study_time"; "transferSyntaxUid" ].

(** One of the three attributes of the file meta group is present. *)
Definition meta_present (ds : Dataset) : bool :=
  bool_decide (is_Some (file_meta ds !! tag_sop))
  || bool_decide (is_Some (file_meta ds !! tag_aet))
  || bool_decide (is_Some (file_meta ds !! tag_tsuid)).

(** The log entry the parser writes for a path. *)
Definition parse_entry (isd : Path -> result bool) (rd : Path -> result Dataset)
    (p : Path) : level * string :=
  (if read_ok isd rd p then INFO else ERROR, limit_path p).

Section ParserMore.

Implicit Types (w : world) (p : Path) (paths : list Path) (san : bool).

Lemma errors_handled_app isd rd (l1 l2 : list Path) :
  errors_handled isd rd (l1 ++ l2)
  = errors_handled isd rd l1 && errors_handled isd rd l2.
Proof. unfold errors_handled. apply forallb_app. Qed.

Lemma records_of_app isd rd san (l1 l2 : list Path) :
  records_of isd rd san (l1 ++ l2)
  = records_of isd rd san l1 ++ records_of isd rd san l2.
Proof. unfold records_of. apply omap_app. Qed.

Lemma record_of_filename san p ds :
  Dict.get "filename" (record_of san p ds) = Some (name p).
Proof.
  unfold record_of. rewrite extract_all_closed.
  generalize (name p) (main_value san ds) (meta_value ds). intros fn mv xv.
  reflexivity.
Qed.

Lemma syntax_name_present m ds :
  is_Some (syntax_name m ds) <-> meta_present ds = true.
Proof.
  unfold syntax_name, meta_present.
  destruct (file_meta ds !! tag_tsuid), (file_meta ds !! tag_aet),
    (file_meta ds !! tag_sop); simpl; split; try done;
    try (by intros _; eexists); by intros [? ?].
Qed.

Lemma record_of_keys san p ds :
  Dict.keys (record_of san p ds)
  = base_columns ++ (if meta_present ds then ["transferSyntaxName"] else []).
Proof.
  unfold record_of. rewrite record_keys.
  pose proof (syntax_name_present (get_transfer_syntax_map false) ds) as Hp.
  destruct (syntax_name (get_transfer_syntax_map false) ds) as [n|].
  - destruct Hp as [Hp _]. by rewrite Hp by by eexists.
  - destruct (meta_present ds); [|done].
    destruct Hp as [_ Hp]. by destruct (Hp eq_refl).
Qed.

(** The world one turn of the loop leaves: the same but for one log entry,
    unless an exception goes through. *)
Lemma parse_one_world san acc p w :
  let r := parse_one san (get_transfer_syntax_map false) acc p w in
  match raised (is_dicom w) (dcmread w) p with
  | Some e => if handles parse_handled e
              then r.2 = add_log (ERROR, limit_path p) w else r.2 = w
  | None => r.2 = add_log (INFO, limit_path p) w
  end.
Proof.
  unfold parse_one, raised, try_except, bind, raise, ret,
    Logger.info, Logger.exception, modify.
  destruct (is_dicom w p) as [[|]|e] eqn:Hs; simpl.
  - destruct (dcmread w p) as [ds|e] eqn:Hr; simpl; [done|]. by destruct e.
  - done.
  - by destruct e.
Qed.

Lemma raised_read_ok isd rd p :
  read_ok isd rd p = match raised isd rd p with Some _ => false | None => true end.
Proof.
  unfold read_ok, passes_sniff, raised.
  destruct (isd p) as [[|]|]; [|done..]. by destruct (rd p).
Qed.

Local Opaque get_transfer_syntax_map handles parse_one limit_path.

Lemma parse_loop_world san paths acc w :
  errors_handled (is_dicom w) (dcmread w) paths = true ->
  let r := foldM (parse_one san (get_transfer_syntax_map false)) acc paths w in
  fs r.2 = fs w /\ is_dicom r.2 = is_dicom w /\ dcmread r.2 = dcmread w
  /\ log r.2 = log w ++ (parse_entry (is_dicom w) (dcmread w) <$> paths).
Proof.
  revert acc w. induction paths as [|p ps IH]; intros acc w Hh.
  - simpl. by rewrite app_nil_r.
  - unfold errors_handled in Hh. cbn [forallb] in Hh.
    apply andb_true_iff in Hh as [Hp Hps].
    pose proof (parse_one_spec san acc p w) as (Hi & Hd & Hr).
    pose proof (parse_one_world san acc p w) as Hw.
    cbn [foldM]. unfold bind.
    destruct (parse_one san (get_transfer_syntax_map false) acc p w) as [r w'].
    cbn [fst snd] in Hi, Hd, Hr, Hw. unfold parse_entry at 1.
    rewrite fmap_cons, raised_read_ok.
    destruct (raised (is_dicom w) (dcmread w) p) as [e|].
    + rewrite Hp in Hr, Hw. subst r w'.
      destruct (IH acc (add_log (ERROR, limit_path p) w) Hps) as (Hf & Hi' & Hd' & Hl).
      cbn zeta in *. rewrite Hf, Hi', Hd', Hl. cbn [log add_log fs is_dicom dcmread].
      by rewrite <- app_assoc.
    + subst r w'.
      destruct (IH (acc ++ option_list (record_of san p <$>
                      readable (is_dicom w) (dcmread w) p))
                  (add_log (INFO, limit_path p) w) Hps) as (Hf & Hi' & Hd' & Hl).
      cbn zeta in *. rewrite Hf, Hi', Hd', Hl. cbn [log add_log fs is_dicom dcmread].
      by rewrite <- app_assoc.
Qed.

Local Transparent get_transfer_syntax_map handles parse_one limit_path.

End ParserMore.

(** X4. With [include_reverse=True] the transfer syntax map resolves every
    identifier of the table to its name and every name back to its
    identifier; it has twenty entries, and a key that is neither an
    identifier nor a name of the table is absent. The forward entries are
    those of the plain map. *)
Theorem transfer_syntax_reverse :
  Forall (fun kv : string * string =>
            get_transfer_syntax_map true !! kv.1 = Some kv.2
            /\ get_transfer_syntax_map true !! kv.2 = Some kv.1
            /\ get_transfer_syntax_map false !! kv.1 = Some kv.2
            /\ get_transfer_syntax_map false !! kv.2 = None)
         transfer_syntax_pairs
  /\ size (get_transfer_syntax_map true) = 20
  /\ (forall key, key ∉ transfer_syntax_pairs.*1 -> key ∉ transfer_syntax_pairs.*2 ->
        get_transfer_syntax_map true !! key = None).
Proof.
  split; [|split].
  - repeat (apply Forall_cons_2; [repeat split; vm_compute; reflexivity|]).
    apply Forall_nil_2.
  - by vm_compute.
  - intros key H1 H2. unfold get_transfer_syntax_map.
    apply lookup_union_None. split; apply gmap_of_pairs_absent; [|done].
    by rewrite <- list_fmap_compose.
Qed.

Lemma transfer_syntax_reverse_witness :
  get_transfer_syntax_map true !! "1.2.840.113619.5.2" = None.
Proof.
  apply transfer_syntax_reverse;
    eapply bool_decide_eq_true_1; vm_compute; reflexivity.
Defined.

(** X5. The files of a batch are parsed independently and in order: when
    every exception met is handled, the records of a concatenated list of
    paths are the records of the first part followed by those of the
    second. *)
Theorem parse_tags_app (san : bool) (w : world) (l1 l2 : list Path) :
  errors_handled (is_dicom w) (dcmread w) (l1 ++ l2) = true ->
  exists r1 r2,
    (parse_tags l1 san w).1 = Ok r1
    /\ (parse_tags l2 san w).1 = Ok r2
    /\ (parse_tags (l1 ++ l2) san w).1 = Ok (r1 ++ r2).
Proof.
  intros H. pose proof H as H'.
  rewrite errors_handled_app in H'. apply andb_true_iff in H' as [H1 H2].
  exists (records_of (is_dicom w) (dcmread w) san l1),
         (records_of (is_dicom w) (dcmread w) san l2).
  rewrite !parse_tags_spec, !first_unhandled_none by done.
  by rewrite records_of_app.
Qed.

Lemma parse_tags_app_witness :
  exists r1 r2,
    (parse_tags [Scenario.a_dcm; Scenario.b_dcm] true Scenario.w_abc).1 = Ok r1
    /\ (parse_tags [Scenario.c_dcm; Scenario.a_dcm] true Scenario.w_abc).1 = Ok r2
    /\ (parse_tags ([Scenario.a_dcm; Scenario.b_dcm]
                    ++ [Scenario.c_dcm; Scenario.a_dcm]) true Scenario.w_abc).1
       = Ok (r1 ++ r2).
Proof.
  apply (parse_tags_app true Scenario.w_abc). vm_compute. reflexivity.
Defined.

(** X6. The ["filename"] values of the records are the names of the files
    that pass the sniff and are read, in the order of the input paths. *)
Theorem parse_tags_filenames (san : bool) (w : world) (paths : list Path)
    (recs : list (dict string)) :
  (parse_tags paths san w).1 = Ok recs ->
  Dict.get "filename" <$> recs
  = (fun p => Some (name p))
      <$> filter (fun p => read_ok (is_dicom w) (dcmread w) p = true) paths.
Proof.
  rewrite parse_tags_spec.
  destruct (first_unhandled (is_dicom w) (dcmread w) paths); [done|].
  intros [= <-]. unfold records_of.
  induction paths as [|p ps IH]; [done|].
  rewrite filter_cons. cbn [omap list_omap].
  pose proof (readable_read_ok (is_dicom w) (dcmread w) p) as Hr.
  destruct (readable (is_dicom w) (dcmread w) p) as [ds|] eqn:Hd.
  - destruct (read_ok (is_dicom w) (dcmread w) p) eqn:Hok.
    + rewrite decide_True by done. cbn [fmap option_fmap option_map].
      rewrite !fmap_cons, record_of_filename. f_equal. apply IH.
    + destruct Hr as [_ Hr]. by specialize (Hr eq_refl).
  - destruct Hr as [Hr _]. rewrite Hr by done.
    rewrite decide_False by done. apply IH.
Qed.

Lemma parse_tags_filenames_witness :
  Dict.get "filename"
    <$> records_of (is_dicom Scenario.w_abc) (dcmread Scenario.w_abc) false
          [Scenario.a_dcm; Scenario.b_dcm; Scenario.c_dcm]
  = (fun p => Some (name p))
      <$> filter (fun p => read_ok (is_dicom Scenario.w_abc)
                             (dcmread Scenario.w_abc) p = true)
            [Scenario.a_dcm; Scenario.b_dcm; Scenario.c_dcm].
Proof.
  apply (parse_tags_filenames false Scenario.w_abc). vm_compute. reflexivity.
Defined.

(** X7. The keys of every record are, in this order, ["filename"], the
    eleven attribute names, and then ["transferSyntaxName"] exactly when the
    file meta group of its file holds one of the three meta attributes. *)
Theorem parse_tags_record_keys (san : bool) (w : world) (paths : list Path)
    (recs : list (dict string)) :
  (parse_tags paths san w).1 = Ok recs ->
  Forall (fun rec => exists p ds,
            p ∈ paths /\ dcmread w p = Ok ds
            /\ Dict.keys rec
               = base_columns
                 ++ (if meta_present ds then ["transferSyntaxName"] else []))
         recs.
Proof.
  rewrite parse_tags_spec.
  destruct (first_unhandled (is_dicom w) (dcmread w) paths); [done|].
  intros [= <-]. apply Forall_forall. intros rec Hrec.
  apply records_of_readable in Hrec as (p & ds & Hp & _ & Hd & ->).
  exists p, ds. split; [done|]. split; [done|]. apply record_of_keys.
Qed.

Lemma parse_tags_record_keys_witness :
  Forall (fun rec => exists p ds,
            p ∈ [Scenario.a_dcm] /\ dcmread Scenario.w_no_meta p = Ok ds
            /\ Dict.keys rec
               = base_columns
                 ++ (if meta_present ds then ["transferSyntaxName"] else []))
         [ record_of false Scenario.a_dcm Scenario.ds_no_meta ].
Proof.
  apply (parse_tags_record_keys false Scenario.w_no_meta [Scenario.a_dcm]).
  vm_compute. reflexivity.
Defined.

(** X8. Parsing reads only: when every exception met is handled, the file
    system is unchanged and the log grows by exactly one entry per path, in
    order, an INFO entry for a file that gave a record and an ERROR entry
    for a skipped one, each with the last two parts of the path. *)
Theorem parse_tags_log (san : bool) (w : world) (paths : list Path) :
  errors_handled (is_dicom w) (dcmread w) paths = true ->
  fs (parse_tags paths san w).2 = fs w
  /\ log (parse_tags paths san w).2
     = log w ++ (parse_entry (is_dicom w) (dcmread w) <$> paths).
Proof.
  intros H. destruct (parse_loop_world san paths [] w H) as (Hf & _ & _ & Hl).
  by split.
Qed.

Lemma parse_tags_log_witness :
  fs (parse_tags [Scenario.a_dcm; Scenario.b_dcm; Scenario.c_dcm] false
        Scenario.w_abc).2 = fs Scenario.w_abc
  /\ log (parse_tags [Scenario.a_dcm; Scenario.b_dcm; Scenario.c_dcm] false
            Scenario.w_abc).2
     = log Scenario.w_abc
       ++ (parse_entry (is_dicom Scenario.w_abc) (dcmread Scenario.w_abc)
             <$> [Scenario.a_dcm; Scenario.b_dcm; Scenario.c_dcm]).
Proof.
  apply (parse_tags_log false Scenario.w_abc). vm_compute. reflexivity.
Defined.

(* ===================================================================== *)
(** * Further properties of file discovery *)
(* ===================================================================== *)

Section DiscoveryMore.

Implicit Types (w : world) (p q src : Path) (ext : string).

Lemma below_recursive w src ext p :
  below w src ext false p -> below w src ext true p.
Proof.
  intros (n & rest & Hp & _ & Hin & He). exists n, rest.
  repeat split; done.
Qed.

Lemma NoDup_omap_fst (f : Path * node -> option Path) (l : list (Path * node)) :
  NoDup l.*1 ->
  (forall e1 e2 p, f e1 = Some p -> f e2 = Some p -> e1.1 = e2.1) ->
  NoDup (omap f l).
Proof.
  intros Hnd Hf. induction l as [|a l IH]; [constructor|].
  rewrite fmap_cons in Hnd. apply NoDup_cons in Hnd as [Ha Hl].
  cbn [omap list_omap]. destruct (f a) as [p|] eqn:Hfa; [|by apply IH].
  constructor; [|by apply IH].
  intros (e & He & Hfe)%list_elem_of_omap. apply Ha.
  rewrite (Hf a e p Hfa Hfe). apply list_elem_of_fmap. by exists e.
Qed.

Lemma found_NoDup w src ext (recursive : bool) :
  NoDup (fs w).*1 ->
  NoDup ((if recursive then FS.rglob w src else FS.glob w src) ext).
Proof.
  intros Hnd. destruct recursive; unfold FS.rglob, FS.glob;
    apply NoDup_omap_fst; try done; intros e1 e2 p H1 H2.
  - destruct (FS.strip_prefix _ e1.1) as [[|n1 r1]|] eqn:Hs1; try done.
    destruct (FS.strip_prefix _ e2.1) as [[|n2 r2]|] eqn:Hs2; try done.
    destruct (endswith (name (n1 :: r1)) ext); [|done].
    destruct (endswith (name (n2 :: r2)) ext); [|done].
    apply strip_prefix_spec in Hs1, Hs2. rewrite Hs1, Hs2.
    injection H1 as <-. injection H2 as H2. apply app_inv_head in H2.
    by rewrite H2.
  - destruct (FS.strip_prefix _ e1.1) as [[|n1 [|? ?]]|] eqn:Hs1; try done.
    destruct (FS.strip_prefix _ e2.1) as [[|n2 [|? ?]]|] eqn:Hs2; try done.
    destruct (endswith n1 ext); [|done]. destruct (endswith n2 ext); [|done].
    apply strip_prefix_spec in Hs1, Hs2. rewrite Hs1, Hs2.
    injection H1 as <-. injection H2 as H2. apply app_inv_head in H2.
    by rewrite H2.
Qed.

End DiscoveryMore.

(** X9. A recursive search finds at least what the flat search finds:
    every path returned by [find_dicom] without recursion is returned with
    recursion. *)
Theorem find_dicom_recursive_superset (w : world) (src : Path) (ext : string) :
  exists flat deep,
    (find_dicom src ext false w).1 = Ok flat
    /\ (find_dicom src ext true w).1 = Ok deep
    /\ flat ⊆ deep.
Proof.
  do 2 eexists. split; [apply find_dicom_result|].
  split; [apply find_dicom_result|].
  destruct (FS.is_dir w src && bool_decide (lower ext ∈ allowed_ext)); [|done].
  intros q (p & -> & Hp)%list_elem_of_fmap. apply list_elem_of_fmap.
  exists p. split; [done|].
  apply (candidates_spec w src ext false) in Hp as [Hb Hf].
  apply (candidates_spec w src ext true). split; [by apply below_recursive | done].
Qed.

(** X10. A flat search returns only entries directly in the source
    directory: every returned path is the absolute source path followed by
    one name that ends with the selector. *)
Theorem find_dicom_flat_children (w : world) (src : Path) (ext : string)
    (paths : list Path) :
  fs_names_ok w = true ->
  (find_dicom src ext false w).1 = Ok paths ->
  Forall (fun q => exists n, q = FS.absolute w src ++ [n]
                             /\ endswith n ext = true) paths.
Proof.
  intros Hok. rewrite find_dicom_result. intros [= <-].
  destruct (FS.is_dir w src && bool_decide (lower ext ∈ allowed_ext));
    [|constructor].
  apply Forall_forall. intros q (p & -> & Hp)%list_elem_of_fmap.
  apply (candidates_spec w src ext false)
    in Hp as [(n & rest & -> & Hr & Hin & He) _].
  rewrite (Hr eq_refl) in *. exists n.
  rewrite (absolute_below w src n [] Hok Hin), app_assoc, <- absolute_anchor.
  done.
Qed.

Lemma find_dicom_flat_children_witness :
  Forall (fun q => exists n, q = FS.absolute Scenario.w_upper Scenario.input_dir ++ [n]
                             /\ endswith n ".DCM" = true)
    [ Scenario.input_dir ++ ["A.DCM"]; Scenario.input_dir ++ ["B.DCM"] ].
Proof.
  apply (find_dicom_flat_children Scenario.w_upper Scenario.input_dir ".DCM");
    vm_compute; reflexivity.
Defined.

(** X11. On a file system that lists every path once and names nothing
    ["/"], no path is returned twice. *)
Theorem find_dicom_no_duplicates (w : world) (src : Path) (ext : string)
    (recursive : bool) (paths : list Path) :
  fs_names_ok w = true -> NoDup (fs w).*1 ->
  (find_dicom src ext recursive w).1 = Ok paths ->
  NoDup paths.
Proof.
  intros Hok Hnd. rewrite find_dicom_result. intros [= <-].
  destruct (FS.is_dir w src && bool_decide (lower ext ∈ allowed_ext));
    [|constructor].
  apply NoDup_fmap_2_strong.
  - intros p q [Hp _]%candidates_spec [Hq _]%candidates_spec Heq.
    destruct (below_absolute w src ext recursive p Hok Hp) as [Hap _].
    destruct (below_absolute w src ext recursive q Hok Hq) as [Haq _].
    rewrite Hap, Haq in Heq. by apply app_inv_head in Heq.
  - apply NoDup_filter. unfold sorted. rewrite merge_sort_Permutation.
    by apply found_NoDup.
Qed.

Lemma find_dicom_no_duplicates_witness :
  NoDup [ Scenario.input_dir ++ ["c.dcm"];
          Scenario.input_dir ++ ["sub.dcm"; "d.dcm"] ].
Proof.
  apply (find_dicom_no_duplicates Scenario.w_upper Scenario.input_dir ".dcm" true).
  - vm_compute. reflexivity.
  - eapply bool_decide_eq_true_1. vm_compute. reflexivity.
  - vm_compute. reflexivity.
Defined.

(* ===================================================================== *)
(** * Further properties of the writer *)
(* ===================================================================== *)

(** One artifact of the writer: delete the file if it is there, write the
    text, then check that the file exists and is not empty. *)
Definition write_stage (p : Path) (text : string) : St world bool :=
  fun w =>
    match (if FS.is_file w p then FS.unlink p w else (Ok tt, w)) with
    | (Raise e, w1) => (Raise e, w1)
    | (Ok _, w1) =>
        match FS.write_text p text w1 with
        | (Raise e, w2) => (Raise e, w2)
        | (Ok _, w2) => (Ok (FS.is_file w2 p && FS.nonempty_file w2 p), w2)
        end
    end.

Definition log_if (b : bool) (entry : level * string) (w : world) : world :=
  if b then add_log entry w else w.

Definition json_of (dst : Path) : Path := joinpath dst (MODULE +:+ ".json").
Definition csv_of (dst : Path) : Path := joinpath dst (MODULE +:+ ".csv").

(** The worlds agree on everything but the file system and the log. *)
Definition same_env (w w' : world) : Prop :=
  cwd_parts w' = cwd_parts w /\ fault w' = fault w
  /\ is_dicom w' = is_dicom w /\ dcmread w' = dcmread w
  /\ now w' = now w /\ elapsed w' = elapsed w
  /\ to_date_column w' = to_date_column w /\ to_time_column w' = to_time_column w
  /\ render_json w' = render_json w /\ render_csv w' = render_csv w.

(** ** Running statements on a state *)

Section Run.

Context {W L : Type}.

Lemma run_bind {S A B} (m : St S A) (k : A -> St S B) (s : S) :
  bind m k s = match m s with
               | (Ok a, s') => k a s'
               | (Raise e, s') => (Raise e, s')
               end.
Proof. reflexivity. Qed.

Lemma run_bind_assoc {S A B C} (m : St S A) (k : A -> St S B) (h : B -> St S C) s :
  bind (bind m k) h s = bind m (fun a => bind (k a) h) s.
Proof. unfold bind. by destruct (m s) as [[a|e] s']. Qed.

Lemma run_set_local {B} (f : L -> L) (k : unit -> St (W * L) B) w l :
  bind (set_local f) k (w, l) = k tt (w, f l).
Proof. reflexivity. Qed.

Lemma run_read_local {A B} (f : L -> option A) (k : A -> St (W * L) B) w l :
  bind (read_local f) k (w, l)
  = match f l with
    | Some a => k a (w, l)
    | None => (Raise UnboundLocalError, (w, l))
    end.
Proof. unfold bind, read_local. by destruct (f l). Qed.

Lemma run_get_local {A B} (f : L -> A) (k : A -> St (W * L) B) w l :
  bind (get_local f) k (w, l) = k (f l) (w, l).
Proof. reflexivity. Qed.

Lemma run_gets {A B} (g : W -> A) (k : A -> St (W * L) B) w l :
  bind (on_world (gets g)) k (w, l) = k (g w) (w, l).
Proof. reflexivity. Qed.

Lemma run_on_world {A B} (m : St W A) (k : A -> St (W * L) B) w l :
  bind (on_world m) k (w, l)
  = match m w with
    | (Ok a, w') => k a (w', l)
    | (Raise e, w') => (Raise e, (w', l))
    end.
Proof. unfold bind, on_world. by destruct (m w) as [[a|e] w']. Qed.

Lemma run_when {S B} (b : bool) (m : St S unit) (k : unit -> St S B) s :
  bind (when b m) k s = if b then bind m k s else k tt s.
Proof. by destruct b. Qed.

End Run.

Section WriterMore.

Implicit Types (w : world) (dst p q : Path) (d : DataFrame).

(** The statements for one artifact amount to [write_stage]. *)
Lemma run_stage {B} (render : world -> DataFrame -> string) d p
    (k : bool -> St (world * write_locals) B) w (l : write_locals) :
  (forall f w0, render (set_fs f w0) d = render w0 d) ->
  bind (on_world (gets (fun w => FS.is_file w p))) (fun present =>
    bind (when present (on_world (FS.unlink p))) (fun _ =>
      bind (on_world (method_of (Some d))) (fun d' =>
        bind (on_world (gets (fun w => render w d'))) (fun text =>
          bind (on_world (FS.write_text p text)) (fun _ =>
            bind (on_world (gets (fun w => FS.is_file w p && FS.nonempty_file w p)))
              k))))) (w, l)
  = match write_stage p (render w d) w with
    | (Ok b, w') => k b (w', l)
    | (Raise e, w') => (Raise e, (w', l))
    end.
Proof.
  intros Hr. rewrite run_gets, run_when. unfold write_stage.
  assert (Hrest : forall w1,
    (forall f, render (set_fs f w1) d = render w1 d) ->
    bind (on_world (method_of (Some d))) (fun d' =>
      bind (on_world (gets (fun w => render w d'))) (fun text =>
        bind (on_world (FS.write_text p text)) (fun _ =>
          bind (on_world (gets (fun w => FS.is_file w p && FS.nonempty_file w p)))
            k))) (w1, l)
    = match FS.write_text p (render w1 d) w1 with
      | (Raise e, w2) => (Raise e, (w2, l))
      | (Ok _, w2) => k (FS.is_file w2 p && FS.nonempty_file w2 p) (w2, l)
      end).
  { intros w1 _. rewrite run_on_world. cbn [method_of ret]. cbn beta iota.
    rewrite run_gets, run_on_world.
    destruct (FS.write_text p (render w1 d) w1) as [[[]|e] w2]; [|done].
    by rewrite run_gets. }
  destruct (FS.is_file w p).
  - rewrite run_on_world. unfold FS.unlink at 1 2.
    destruct (fault w (OpUnlink (FS.absolute w p))); [done|].
    destruct (FS.lookup_path (FS.absolute w p) (fs w)) as [[|c]|];
      [done| |]; rewrite Hrest by (intros; apply Hr); rewrite Hr;
      by destruct (FS.write_text p (render w d) _) as [[[]|e] w2].
  - rewrite Hrest by (intros; apply Hr).
    by destruct (FS.write_text p (render w d) w) as [[[]|e] w2].
Qed.


Lemma lookup_store_eq (a : Path) (n : node) (f : list (Path * node)) :
  FS.lookup_path a (FS.store a n f) = Some n.
Proof.
  induction f as [|[q m] f IH]; simpl.
  - by rewrite decide_True.
  - destruct (decide (a = q)) as [->|Hne]; simpl.
    + by rewrite decide_True.
    + by rewrite decide_False.
Qed.

Lemma lookup_store_ne (a b : Path) (n : node) (f : list (Path * node)) :
  a <> b -> FS.lookup_path b (FS.store a n f) = FS.lookup_path b f.
Proof.
  intros Hab. induction f as [|[q m] f IH]; simpl.
  - by rewrite decide_False.
  - destruct (decide (a = q)) as [->|Hne]; simpl.
    + by rewrite !decide_False.
    + destruct (decide (b = q)); [done|apply IH].
Qed.

Lemma lookup_remove_eq (a : Path) (f : list (Path * node)) :
  FS.lookup_path a (filter (fun e : Path * node => e.1 <> a) f) = None.
Proof.
  induction f as [|[q m] f IH]; [done|].
  rewrite filter_cons. simpl. destruct (decide (q <> a)) as [Hne|_]; [|done].
  simpl. by rewrite decide_False.
Qed.

Lemma lookup_remove_ne (a b : Path) (f : list (Path * node)) :
  a <> b ->
  FS.lookup_path b (filter (fun e : Path * node => e.1 <> a) f)
  = FS.lookup_path b f.
Proof.
  intros Hab. induction f as [|[q m] f IH]; [done|].
  rewrite filter_cons. simpl. destruct (decide (q <> a)) as [Hne|He]; simpl.
  - destruct (decide (b = q)); [done|apply IH].
  - apply dec_stable in He. subst q. by rewrite decide_False.
Qed.

Lemma same_env_refl w : same_env w w.
Proof. by repeat split. Qed.

Lemma same_env_set_fs f w : same_env w (set_fs f w).
Proof. by repeat split. Qed.

Lemma same_env_add_log e w : same_env w (add_log e w).
Proof. by repeat split. Qed.

Lemma same_env_trans w1 w2 w3 : same_env w1 w2 -> same_env w2 w3 -> same_env w1 w3.
Proof.
  unfold same_env. intros H1 H2.
  destruct H1 as (?&?&?&?&?&?&?&?&?&?), H2 as (?&?&?&?&?&?&?&?&?&?).
  repeat split; congruence.
Qed.

Lemma same_env_absolute w w' p : same_env w w' -> FS.absolute w' p = FS.absolute w p.
Proof. intros (Hc & _). unfold FS.absolute, FS.getcwd. by rewrite Hc. Qed.

(** What one stage does to the world. *)
Lemma write_stage_spec p text w :
  let r := write_stage p text w in
  same_env w r.2 /\ log r.2 = log w
  /\ (forall q, q <> FS.absolute w p ->
        FS.lookup_path q (fs r.2) = FS.lookup_path q (fs w))
  /\ (forall b, r.1 = Ok b ->
        FS.lookup_path (FS.absolute w p) (fs r.2) = Some (File text)
        /\ b = negb (bool_decide (text = ""))).
Proof.
  assert (Hw : forall w0, same_env w w0 ->
    let r := FS.write_text p text w0 in
    same_env w r.2 /\ log r.2 = log w0
    /\ (forall q, q <> FS.absolute w p ->
          FS.lookup_path q (fs r.2) = FS.lookup_path q (fs w0))
    /\ (r.1 = Ok tt ->
          FS.lookup_path (FS.absolute w p) (fs r.2) = Some (File text))).
  { intros w0 He. unfold FS.write_text.
    rewrite (same_env_absolute w w0 p He).
    destruct (fault w0 _); cbn [fst snd].
    { split; [exact He|]. by repeat split. }
    assert (He' : same_env w
              (set_fs (FS.store (FS.absolute w p) (File text) (fs w0)) w0)).
    { eapply same_env_trans; [exact He | apply same_env_set_fs]. }
    destruct (FS.lookup_path _ (fs w0)) as [[|c]|]; cbn [fst snd fs set_fs log].
    - split; [exact He|]. by repeat split.
    - split; [exact He'|]. split; [done|]. split.
      + intros q Hq. by rewrite lookup_store_ne.
      + intros _. by rewrite lookup_store_eq.
    - split; [exact He'|]. split; [done|]. split.
      + intros q Hq. by rewrite lookup_store_ne.
      + intros _. by rewrite lookup_store_eq. }
  assert (Hfin : forall w0, same_env w w0 ->
    (forall q, q <> FS.absolute w p ->
       FS.lookup_path q (fs w0) = FS.lookup_path q (fs w)) ->
    log w0 = log w ->
    let r := match FS.write_text p text w0 with
             | (Raise e, w2) => (Raise e, w2)
             | (Ok _, w2) => (Ok (FS.is_file w2 p && FS.nonempty_file w2 p), w2)
             end in
    same_env w r.2 /\ log r.2 = log w
    /\ (forall q, q <> FS.absolute w p ->
          FS.lookup_path q (fs r.2) = FS.lookup_path q (fs w))
    /\ (forall b, r.1 = Ok b ->
          FS.lookup_path (FS.absolute w p) (fs r.2) = Some (File text)
          /\ b = negb (bool_decide (text = "")))).
  { intros w0 He Hfr Hl. destruct (Hw w0 He) as (He2 & Hl2 & Hfr2 & Hok).
    destruct (FS.write_text p text w0) as [[[]|e] w2]; cbn [fst snd] in *.
    - split; [done|]. split; [congruence|]. split.
      + intros q Hq. rewrite Hfr2 by done. by apply Hfr.
      + intros b [= <-]. specialize (Hok eq_refl). split; [done|].
        unfold FS.is_file, FS.nonempty_file, FS.stat.
        by rewrite (same_env_absolute w w2 p He2), Hok.
    - split; [done|]. split; [congruence|]. split; [|done].
      intros q Hq. rewrite Hfr2 by done. by apply Hfr. }
  unfold write_stage. destruct (FS.is_file w p).
  - unfold FS.unlink. destruct (fault w _); cbn [fst snd].
    { split; [apply same_env_refl|]. split; [done|]. split; [done|]. by intros b [=]. }
    destruct (FS.lookup_path _ (fs w)) as [[|c]|].
    + cbn [fst snd]. split; [apply same_env_refl|]. split; [done|].
      split; [done|]. by intros b [=].
    + apply Hfin; [apply same_env_set_fs| |done].
      intros q Hq. cbn [fs set_fs]. by rewrite lookup_remove_ne.
    + apply Hfin; [apply same_env_set_fs| |done].
      intros q Hq. cbn [fs set_fs]. by rewrite lookup_remove_ne.
  - apply Hfin; [apply same_env_refl|done..].
Qed.

Lemma artifact_paths_differ w dst (a b : string) :
  a <> root -> b <> root -> a <> b ->
  FS.absolute w (joinpath dst a) <> FS.absolute w (joinpath dst b).
Proof.
  intros Ha Hb Hab.
  assert (Hpre : exists pre, forall x, x <> root ->
            FS.absolute w (joinpath dst x) = pre ++ [x]).
  { unfold FS.absolute, joinpath. destruct dst as [|r s].
    - exists (FS.getcwd w). intros x Hx. simpl.
      by rewrite bool_decide_eq_false_2.
    - simpl. destruct (bool_decide (r = root)).
      + by exists (r :: s).
      + exists (FS.getcwd w ++ r :: s). intros x _.
        by rewrite <- app_assoc. }
  destruct Hpre as [pre Hpre]. rewrite !Hpre by done.
  intros H%app_inv_head. by injection H.
Qed.

Lemma write_to_file_stages d dst w :
  write_to_file (Some d) dst w =
    match write_stage (json_of dst) (render_json w d) w with
    | (Raise e, w1) =>
        if handles write_handled e then (Raise UnboundLocalError, w1)
        else (Raise e, w1)
    | (Ok js, w1) =>
        let w1 := log_if js (INFO, limit_path (json_of dst)) w1 in
        match write_stage (csv_of dst) (render_csv w d) w1 with
        | (Raise e, w2) =>
            if handles write_handled e
            then (Ok false, add_log (ERROR, limit_path (csv_of dst)) w2)
            else (Raise e, w2)
        | (Ok cs, w2) =>
            (Ok (cs && js), log_if cs (INFO, limit_path (csv_of dst)) w2)
        end
    end.
Proof.
  unfold write_to_file, with_locals, json_of, csv_of.
  rewrite run_bind. unfold try_except at 1.
  rewrite run_set_local, run_read_local. cbn [json_path set_json_path].
  rewrite (run_stage render_json) by done.
  destruct (write_stage _ (render_json w d) w) as [[js|e] w1] eqn:Heqs.
  2:{ destruct (handles write_handled e); [|done].
      by rewrite run_read_local. }
  rewrite run_when.
  assert (Hcsv : forall w1' (j : bool),
    let l := {| is_csv_saved := false; is_json_saved := j;
                json_path := Some (joinpath dst (MODULE +:+ ".json"));
                csv_path := None |} in
    render_csv w1' = render_csv w ->
    (let '(r, (w', _)) :=
       match
       match
         bind (set_local (set_csv_path (joinpath dst (MODULE +:+ ".csv"))))
           (fun _ => bind (read_local csv_path) (fun cp =>
              bind (on_world (gets (fun w => FS.is_file w cp))) (fun present =>
                bind (when present (on_world (FS.unlink cp))) (fun _ =>
                  bind (on_world (method_of (Some d))) (fun d0 =>
                    bind (on_world (gets (fun w => render_csv w d0))) (fun text =>
                      bind (on_world (FS.write_text cp text)) (fun _ =>
                        bind (on_world (gets (fun w =>
                                FS.is_file w cp && FS.nonempty_file w cp)))
                          (fun saved =>
                             when saved
                               (bind (set_local set_csv_saved) (fun _ =>
                                  on_world (Logger.info (limit_path cp)))))))))))) (w1', l)
       with
       | (Ok a, s') => (Ok a, s')
       | (Raise e, s') =>
           if handles write_handled e
           then bind (read_local csv_path) (fun cp =>
                  on_world (Logger.exception (limit_path cp))) s'
           else (Raise e, s')
       end
       with
       | (Ok _, s') =>
           bind (get_local is_csv_saved) (fun c =>
             bind (get_local is_json_saved) (fun j => ret (c && j))) s'
       | (Raise e, s') => (Raise e, s')
       end in (r, w'))
    = match write_stage (joinpath dst (MODULE +:+ ".csv")) (render_csv w d) w1' with
      | (Raise e, w2) =>
          if handles write_handled e
          then (Ok false,
                add_log (ERROR, limit_path (joinpath dst (MODULE +:+ ".csv"))) w2)
          else (Raise e, w2)
      | (Ok cs, w2) =>
          (Ok (cs && j),
           log_if cs (INFO, limit_path (joinpath dst (MODULE +:+ ".csv"))) w2)
      end).
  { intros w1' j l Hrc. subst l. rewrite run_set_local, run_read_local.
    cbn [csv_path set_csv_path]. rewrite (run_stage render_csv) by done.
    rewrite Hrc.
    destruct (write_stage _ (render_csv w d) w1') as [[cs|e] w2].
    - destruct cs, j; reflexivity.
    - destruct (handles write_handled e); [|done].
      rewrite run_read_local. cbn [csv_path set_csv_path].
      reflexivity. }
  assert (Hrw : render_csv w1 = render_csv w).
  { pose proof (write_stage_spec (joinpath dst (MODULE +:+ ".json"))
                  (render_json w d) w) as (He & _).
    rewrite Heqs in He. by destruct He as (_&_&_&_&_&_&_&_&_&?). }
  destruct js.
  - rewrite run_bind_assoc, run_set_local, run_on_world.
    unfold Logger.info at 1, modify at 1. cbn beta iota.
    cbn [set_json_saved is_csv_saved is_json_saved json_path csv_path set_json_path].
    etrans; [|apply (Hcsv (add_log (INFO, limit_path (joinpath dst (MODULE +:+ ".json"))) w1) true); exact Hrw].
    reflexivity.
  - cbn [set_json_saved is_csv_saved is_json_saved json_path csv_path set_json_path].
    etrans; [|apply (Hcsv w1 false); exact Hrw]. reflexivity.
Qed.

Lemma same_env_log_if b e w : same_env w (log_if b e w).
Proof. destruct b; [apply same_env_add_log | apply same_env_refl]. Qed.

Lemma fs_log_if b e w : fs (log_if b e w) = fs w.
Proof. by destruct b. Qed.

Lemma json_csv_differ w dst :
  FS.absolute w (json_of dst) <> FS.absolute w (csv_of dst).
Proof. apply artifact_paths_differ; by_compute. Qed.

(** A stage that the operating system does not refuse, on a target that is
    not a directory, runs to its end. *)
Lemma write_stage_runs p text w :
  fault w (OpUnlink (FS.absolute w p)) = None ->
  fault w (OpWrite (FS.absolute w p)) = None ->
  FS.is_dir w p = false ->
  (write_stage p text w).1 = Ok (negb (bool_decide (text = ""))).
Proof.
  intros Hu Hwr Hd.
  assert (exists b, (write_stage p text w).1 = Ok b) as [b Hb].
  { unfold write_stage, FS.unlink, FS.write_text, FS.is_file, FS.is_dir, FS.stat in *.
    rewrite Hu.
    destruct (FS.lookup_path (FS.absolute w p) (fs w)) as [[|c]|] eqn:Hl; [done|..].
    - cbn [fault set_fs fs].
      change (FS.absolute (set_fs _ w) p) with (FS.absolute w p).
      rewrite Hwr, lookup_remove_eq. by eexists.
    - rewrite Hwr, Hl. by eexists. }
  rewrite Hb. f_equal.
  by destruct (write_stage_spec p text w) as (_ & _ & _ & Hok), (Hok b Hb).
Qed.

(** The world the writer leaves when it is given no table. *)
Lemma write_to_file_none_frame dst w q :
  q <> FS.absolute w (json_of dst) ->
  FS.lookup_path q (fs (write_to_file None dst w).2) = FS.lookup_path q (fs w).
Proof.
  intros Hq. unfold write_to_file, with_locals, json_of in *.
  rewrite run_bind. unfold try_except at 1.
  rewrite run_set_local, run_read_local. cbn [json_path set_json_path].
  rewrite run_gets, run_when.
  destruct (FS.is_file w _).
  - rewrite run_on_world. unfold FS.unlink at 1.
    destruct (fault w _) as [e|].
    + destruct (handles write_handled e); [|done].
      by rewrite run_read_local.
    + destruct (FS.lookup_path _ (fs w)) as [[|c]|]; [done|..];
        rewrite run_on_world; cbn [method_of raise];
        change (handles write_handled AttributeError) with false;
        cbn [fst snd fs set_fs]; by rewrite lookup_remove_ne.
  - by rewrite run_on_world.
Qed.

(** The writer leaves every path but its two targets as it was. *)
Lemma write_to_file_fs (df : option DataFrame) dst w q :
  q <> FS.absolute w (json_of dst) -> q <> FS.absolute w (csv_of dst) ->
  FS.lookup_path q (fs (write_to_file df dst w).2) = FS.lookup_path q (fs w).
Proof.
  intros Hj Hc. destruct df as [d|].
  2:{ by apply write_to_file_none_frame. }
  rewrite write_to_file_stages.
  pose proof (write_stage_spec (json_of dst) (render_json w d) w)
    as (He1 & _ & Hf1 & _).
  destruct (write_stage (json_of dst) (render_json w d) w) as [[js|e] w1];
    cbn [fst snd] in *.
  2:{ destruct (handles write_handled e); by apply Hf1. }
  cbn zeta. set (w1' := log_if js (INFO, limit_path (json_of dst)) w1) in *.
  assert (He1' : same_env w w1').
  { eapply same_env_trans; [exact He1 | apply same_env_log_if]. }
  pose proof (write_stage_spec (csv_of dst) (render_csv w d) w1')
    as (_ & _ & Hf2 & _).
  rewrite (same_env_absolute w w1' _ He1') in Hf2.
  assert (Hw1 : FS.lookup_path q (fs w1') = FS.lookup_path q (fs w)).
  { unfold w1'. rewrite fs_log_if. by apply Hf1. }
  destruct (write_stage (csv_of dst) (render_csv w d) w1') as [[cs|e] w2];
    cbn [fst snd] in *.
  - rewrite fs_log_if, Hf2 by done. exact Hw1.
  - destruct (handles write_handled e); cbn [fst snd fs add_log];
      rewrite Hf2 by done; exact Hw1.
Qed.

End WriterMore.

(** X12. When the writer returns [True], both artifacts exist in the output
    directory, neither is empty, and they hold the JSON and the CSV
    rendering of the table it was given, whatever was there before. *)
Theorem write_to_file_true (df : option DataFrame) (dst : Path) (w : world) :
  (write_to_file df dst w).1 = Ok true ->
  exists d, df = Some d
    /\ FS.stat (write_to_file df dst w).2 (json_of dst)
       = Some (File (render_json w d))
    /\ FS.stat (write_to_file df dst w).2 (csv_of dst)
       = Some (File (render_csv w d))
    /\ render_json w d <> "" /\ render_csv w d <> "".
Proof.
  destruct df as [d|].
  2:{ intros H. pose proof (write_to_file_none_raises dst w) as Hn.
      by rewrite H in Hn. }
  intros H. exists d. split; [done|]. rewrite write_to_file_stages in *.
  pose proof (write_stage_spec (json_of dst) (render_json w d) w)
    as (He1 & _ & _ & Hok1).
  destruct (write_stage (json_of dst) (render_json w d) w) as [[js|e] w1].
  2:{ by destruct (handles write_handled e). }
  cbn zeta in *. cbn [fst snd] in He1, Hok1.
  set (w1' := log_if js (INFO, limit_path (json_of dst)) w1) in *.
  assert (He1' : same_env w w1').
  { eapply same_env_trans; [exact He1 | apply same_env_log_if]. }
  pose proof (write_stage_spec (csv_of dst) (render_csv w d) w1')
    as (He2 & _ & Hf2 & Hok2).
  rewrite (same_env_absolute w w1' _ He1') in Hf2, Hok2.
  destruct (write_stage (csv_of dst) (render_csv w d) w1') as [[cs|e] w2].
  2:{ by destruct (handles write_handled e). }
  cbn [fst snd] in *. injection H as H. apply andb_true_iff in H as [-> ->].
  destruct (Hok1 true eq_refl) as [Hj Hjn], (Hok2 true eq_refl) as [Hc Hcn].
  assert (He : same_env w (log_if true (INFO, limit_path (csv_of dst)) w2)).
  { eapply same_env_trans; [|apply same_env_log_if].
    eapply same_env_trans; [exact He1' | exact He2]. }
  unfold FS.stat. rewrite !(same_env_absolute w _ _ He), !fs_log_if.
  repeat split.
  - rewrite Hf2 by apply json_csv_differ. unfold w1'. by rewrite fs_log_if.
  - done.
  - intros Ht. by rewrite Ht in Hjn.
  - intros Ht. by rewrite Ht in Hcn.
Qed.

Lemma write_to_file_true_witness :
  exists d, Some Scenario.one_row = Some d
    /\ FS.stat (write_to_file (Some Scenario.one_row) Scenario.output_dir
                  Scenario.w_punct).2 (json_of Scenario.output_dir)
       = Some (File (render_json Scenario.w_punct d))
    /\ FS.stat (write_to_file (Some Scenario.one_row) Scenario.output_dir
                  Scenario.w_punct).2 (csv_of Scenario.output_dir)
       = Some (File (render_csv Scenario.w_punct d))
    /\ render_json Scenario.w_punct d <> ""
    /\ render_csv Scenario.w_punct d <> "".
Proof.
  apply (write_to_file_true (Some Scenario.one_row) Scenario.output_dir
           Scenario.w_punct).
  vm_compute. reflexivity.
Defined.

(** X13. The writer touches nothing but its two artifacts: whatever it is
    given and however it ends, every other path of the file system is as
    before. *)
Theorem write_to_file_frame (df : option DataFrame) (dst : Path) (w : world)
    (q : Path) :
  q <> FS.absolute w (json_of dst) -> q <> FS.absolute w (csv_of dst) ->
  FS.lookup_path q (fs (write_to_file df dst w).2) = FS.lookup_path q (fs w).
Proof. apply write_to_file_fs. Qed.

Lemma write_to_file_frame_witness :
  FS.lookup_path Scenario.a_dcm
    (fs (write_to_file (Some Scenario.one_row) Scenario.output_dir
           Scenario.w_punct).2)
  = FS.lookup_path Scenario.a_dcm (fs Scenario.w_punct).
Proof.
  apply (write_to_file_frame (Some Scenario.one_row) Scenario.output_dir
           Scenario.w_punct Scenario.a_dcm);
    eapply bool_decide_eq_true_1; vm_compute; reflexivity.
Defined.

(** X14. The writer succeeds whenever nothing stands in its way: if the
    operating system refuses neither the deletion nor the writing of the two
    artifacts, neither target is a directory, and neither rendering is
    empty, it returns [True]. *)
Theorem write_to_file_succeeds (d : DataFrame) (dst : Path) (w : world) :
  fault w (OpUnlink (FS.absolute w (json_of dst))) = None ->
  fault w (OpWrite (FS.absolute w (json_of dst))) = None ->
  fault w (OpUnlink (FS.absolute w (csv_of dst))) = None ->
  fault w (OpWrite (FS.absolute w (csv_of dst))) = None ->
  FS.is_dir w (json_of dst) = false -> FS.is_dir w (csv_of dst) = false ->
  render_json w d <> "" -> render_csv w d <> "" ->
  (write_to_file (Some d) dst w).1 = Ok true.
Proof.
  intros Huj Hwj Huc Hwc Hdj Hdc Hrj Hrc. rewrite write_to_file_stages.
  pose proof (write_stage_runs (json_of dst) (render_json w d) w Huj Hwj Hdj) as Hj.
  pose proof (write_stage_spec (json_of dst) (render_json w d) w)
    as (He1 & _ & Hf1 & _).
  destruct (write_stage (json_of dst) (render_json w d) w) as [r1 w1].
  cbn [fst snd] in *. subst r1. rewrite bool_decide_eq_false_2 by done.
  cbn [negb]. cbn zeta.
  set (w1' := log_if true (INFO, limit_path (json_of dst)) w1) in *.
  assert (He1' : same_env w w1').
  { eapply same_env_trans; [exact He1 | apply same_env_log_if]. }
  assert (Hc : (write_stage (csv_of dst) (render_csv w d) w1').1
               = Ok (negb (bool_decide (render_csv w d = "")))).
  { pose proof He1' as (Hcw & Hfl & _).
    apply write_stage_runs.
    - by rewrite (same_env_absolute w w1' (csv_of dst) He1'), Hfl.
    - by rewrite (same_env_absolute w w1' (csv_of dst) He1'), Hfl.
    - unfold FS.is_dir, FS.stat in *.
      rewrite (same_env_absolute w w1' (csv_of dst) He1'). unfold w1'.
      rewrite fs_log_if, Hf1; [done|]. intros H. by apply (json_csv_differ w dst). }
  destruct (write_stage (csv_of dst) (render_csv w d) w1') as [r2 w2].
  cbn [fst] in Hc. subst r2. by rewrite bool_decide_eq_false_2 by done.
Qed.

Lemma write_to_file_succeeds_witness :
  (write_to_file (Some Scenario.one_row) Scenario.output_dir Scenario.w_punct).1
  = Ok true.
Proof.
  apply write_to_file_succeeds; try (vm_compute; reflexivity);
    eapply bool_decide_eq_true_1; vm_compute; reflexivity.
Defined.


(* ===================================================================== *)
(** * Further properties of the raw dumper *)
(* ===================================================================== *)

(** The file [dump_tags_to_txt] writes for a source file. *)
Definition dump_of (dst src : Path) : Path := joinpath dst (stem src +:+ ".txt").

(** A regular file with content [c] at the absolute path [q]. *)
Definition file_at (w : world) (q : Path) (c : string) : Prop :=
  FS.lookup_path q (fs w) = Some (File c).

(** [q] is the absolute path of an entry directly in the folder [dst] whose
    name ends with [.txt]. *)
Definition txt_in (w : world) (dst q : Path) : bool :=
  match FS.strip_prefix (FS.absolute w dst) q with
  | Some [n] => endswith n ".txt"
  | _ => false
  end.

Section DumperMore.

Implicit Types (w : world) (p q dst src : Path).

Lemma chars_app (a b : string) : chars (a +:+ b) = chars a ++ chars b.
Proof. induction a as [|c a IH]; [done|]. simpl. by rewrite <- IH. Qed.

Lemma endswith_app (a b : string) : endswith (a +:+ b) b = true.
Proof.
  unfold endswith. rewrite chars_app, reverse_app.
  apply startswith_spec. by eexists.
Qed.

Lemma absolute_txt w dst (n : string) :
  endswith n ".txt" = true -> FS.absolute w (dst ++ [n]) = FS.absolute w dst ++ [n].
Proof.
  intros He. unfold FS.absolute. destruct dst as [|r s]; simpl.
  - rewrite bool_decide_eq_false_2; [by rewrite app_nil_r|]. by intros ->.
  - destruct (bool_decide (r = root)); [done|].
    unfold FS.getcwd. simpl. by rewrite <- app_assoc.
Qed.

Lemma absolute_dump_of w dst src :
  FS.absolute w (dump_of dst src) = FS.absolute w dst ++ [stem src +:+ ".txt"].
Proof. apply absolute_txt, endswith_app. Qed.

Lemma lookup_snoc q a (n : node) (f : list (Path * node)) :
  FS.lookup_path q (f ++ [(a, n)])
  = match FS.lookup_path q f with
    | Some x => Some x
    | None => if decide (q = a) then Some n else None
    end.
Proof.
  induction f as [|[b m] f IH]; simpl; [done|].
  by destruct (decide (q = b)).
Qed.

(** Creating directories neither adds, changes nor removes a regular file. *)
Lemma mkdir_spec p w :
  let r := FS.mkdir p w in
  same_env w r.2 /\ log r.2 = log w
  /\ forall q c, file_at r.2 q c <-> file_at w q c.
Proof.
  unfold FS.mkdir. cbn zeta. destruct (fault w _); cbn [fst snd].
  { split; [apply same_env_refl|done]. }
  destruct (forallb _ _); cbn [fst snd]; [|split; [apply same_env_refl|done]].
  split; [apply same_env_set_fs|]. split; [done|].
  intros q c. unfold file_at. cbn [fs set_fs].
  generalize ((fun n => take n (FS.absolute w p)) <$> seq 1 (length (FS.absolute w p))).
  intros dirs. generalize (fs w). induction dirs as [|d dirs IH]; intros f; [done|].
  cbn [foldl]. rewrite IH. destruct (FS.lookup_path d f) eqn:Hd; [done|].
  rewrite lookup_snoc. destruct (FS.lookup_path q f); [done|].
  by destruct (decide (q = d)).
Qed.

Lemma same_env_dcmread w w' : same_env w w' -> dcmread w' = dcmread w.
Proof. by intros (_ & _ & _ & H & _). Qed.

(** What one dump does: it leaves the environment alone, the only regular
    file it can add or change is the dump of [src], holding the text of the
    data set, and no exception of its handler's classes leaves it. *)
Lemma dump_tags_to_txt_spec src dst w :
  let r := dump_tags_to_txt src dst w in
  same_env w r.2
  /\ (forall q c, file_at r.2 q c ->
        file_at w q c
        \/ (q = FS.absolute w (dump_of dst src)
            /\ exists ds, dcmread w src = Ok ds /\ c = ds_text ds))
  /\ (forall q c, q <> FS.absolute w (dump_of dst src) ->
        file_at w q c -> file_at r.2 q c)
  /\ (r.1 = Ok true ->
        exists ds, dcmread w src = Ok ds
          /\ file_at r.2 (FS.absolute w (dump_of dst src)) (ds_text ds)
          /\ ds_text ds <> "" /\ log r.2 = log w)
  /\ (r.1 = Ok false \/ r.1 = Ok true
      \/ exists e, r.1 = Raise e /\ handles dump_handled e = false).
Proof.
  assert (Hrest : forall w1 : world,
    same_env w w1 -> log w1 = log w ->
    (forall q c, file_at w1 q c <-> file_at w q c) ->
    forall r0 : result unit,
    let r := try_except
      (fun s : world =>
         match (r0, s) with
         | (Ok _, s') =>
             (ds <- (fun w0 : world => (dcmread w0 src, w0)) ;;
              FS.write_text (dump_of dst src) (ds_text ds) ;;
              gets (fun w0 : world => FS.is_file w0 (dump_of dst src)
                                      && FS.nonempty_file w0 (dump_of dst src))) s'
         | (Raise e, s') => (Raise e, s')
         end)
      dump_handled
      (fun _ => Logger.exception (limit_path src) ;; ret false) w1 in
    same_env w r.2
    /\ (forall q c, file_at r.2 q c ->
          file_at w q c
          \/ (q = FS.absolute w (dump_of dst src)
              /\ exists ds, dcmread w src = Ok ds /\ c = ds_text ds))
    /\ (forall q c, q <> FS.absolute w (dump_of dst src) ->
          file_at w q c -> file_at r.2 q c)
    /\ (r.1 = Ok true ->
          exists ds, dcmread w src = Ok ds
            /\ file_at r.2 (FS.absolute w (dump_of dst src)) (ds_text ds)
            /\ ds_text ds <> "" /\ log r.2 = log w)
    /\ (r.1 = Ok false \/ r.1 = Ok true
        \/ exists e, r.1 = Raise e /\ handles dump_handled e = false)).
  { intros w1 He Hl Hf r0. cbn zeta.
    unfold try_except, bind, gets, ret, Logger.exception, modify.
    assert (Hfail : forall e,
      let r := (if handles dump_handled e
                then (Ok false, add_log (ERROR, limit_path src) w1)
                else (Raise e, w1)) : result bool * world in
      same_env w r.2
      /\ (forall q c, file_at r.2 q c ->
            file_at w q c
            \/ (q = FS.absolute w (dump_of dst src)
                /\ exists ds, dcmread w src = Ok ds /\ c = ds_text ds))
      /\ (forall q c, q <> FS.absolute w (dump_of dst src) ->
            file_at w q c -> file_at r.2 q c)
      /\ (r.1 = Ok true ->
            exists ds, dcmread w src = Ok ds
              /\ file_at r.2 (FS.absolute w (dump_of dst src)) (ds_text ds)
              /\ ds_text ds <> "" /\ log r.2 = log w)
      /\ (r.1 = Ok false \/ r.1 = Ok true
          \/ exists e, r.1 = Raise e /\ handles dump_handled e = false)).
    { intros e. cbn zeta. destruct (handles dump_handled e) eqn:Hh; cbn [fst snd].
      - split; [eapply same_env_trans; [exact He|apply same_env_add_log]|].
        split; [intros q c Hq; left; by apply Hf|].
        split; [intros q c _ Hq; by apply Hf|].
        split; [by intros [=]|by left].
      - split; [exact He|].
        split; [intros q c Hq; left; by apply Hf|].
        split; [intros q c _ Hq; by apply Hf|].
        split; [by intros [=]|]. right. right. by exists e. }
    destruct r0 as [[]|e]; [|apply Hfail].
    rewrite (same_env_dcmread w w1 He).
    destruct (dcmread w src) as [ds|e] eqn:Hr; [|apply Hfail].
    unfold FS.write_text. rewrite (same_env_absolute w w1 _ He).
    destruct (fault w1 _); [apply Hfail|].
    destruct (FS.lookup_path (FS.absolute w (dump_of dst src)) (fs w1))
      as [[|c0]|] eqn:Hlk; [apply Hfail| |].
    all: set (w2 := set_fs (FS.store (FS.absolute w (dump_of dst src))
                              (File (ds_text ds)) (fs w1)) w1).
    all: assert (He2 : same_env w w2)
      by (eapply same_env_trans; [exact He|apply same_env_set_fs]).
    all: assert (Hat : file_at w2 (FS.absolute w (dump_of dst src)) (ds_text ds))
      by (unfold file_at, w2; cbn [fs set_fs]; apply lookup_store_eq).
    all: assert (Hst : FS.stat w2 (dump_of dst src) = Some (File (ds_text ds)))
      by (unfold FS.stat; by rewrite (same_env_absolute w w2 _ He2)).
    all: unfold FS.is_file, FS.nonempty_file; rewrite Hst; cbn [fst snd andb].
    all: split; [exact He2|].
    all: split;
      [intros q c; unfold file_at, w2; cbn [fs set_fs];
       destruct (decide (FS.absolute w (dump_of dst src) = q)) as [<-|Hne];
       [rewrite lookup_store_eq; intros [= <-]; right; split; [done|by exists ds]
       |rewrite lookup_store_ne by done; intros Hq; left; by apply Hf]|].
    all: split;
      [intros q c Hne Hq; unfold file_at, w2; cbn [fs set_fs];
       rewrite lookup_store_ne by done; by apply Hf|].
    all: split;
      [intros [= Hb]; exists ds; split; [done|]; split; [done|]; split;
       [apply negb_true_iff, bool_decide_eq_false in Hb; exact Hb|exact Hl]|].
    all: destruct (negb _); by auto. }
  unfold dump_tags_to_txt.
  destruct (FS.exists_ w dst) eqn:Hex.
  - pose proof (Hrest w (same_env_refl w) eq_refl (fun q c => reflexivity _) (Ok tt)) as H.
    cbn zeta in H. cbn zeta.
    unfold try_except, bind, gets, when, ret in *. rewrite Hex. cbn [negb].
    exact H.
  - pose proof (mkdir_spec dst w) as (He & Hl & Hf). cbn zeta.
    pose proof (Hrest (FS.mkdir dst w).2 He Hl Hf (FS.mkdir dst w).1) as H.
    cbn zeta in H.
    unfold try_except, bind, gets, when, ret in *. rewrite Hex. cbn [negb].
    destruct (FS.mkdir dst w) as [[[]|e] w1]; exact H.
Qed.


Lemma txt_in_spec w dst q :
  txt_in w dst q = true
  <-> exists n, q = FS.absolute w dst ++ [n] /\ endswith n ".txt" = true.
Proof.
  unfold txt_in. split.
  - destruct (FS.strip_prefix _ q) as [[|n [|? ?]]|] eqn:Hs; try done.
    intros He. exists n. split; [|done]. by apply strip_prefix_spec.
  - intros (n & -> & He).
    assert (FS.strip_prefix (FS.absolute w dst) (FS.absolute w dst ++ [n])
            = Some [n]) as -> by by apply strip_prefix_spec.
    done.
Qed.

Lemma txt_in_dump_of w dst src : txt_in w dst (FS.absolute w (dump_of dst src)) = true.
Proof.
  apply txt_in_spec. exists (stem src +:+ ".txt").
  split; [apply absolute_dump_of|apply endswith_app].
Qed.

Lemma same_env_txt_in w w' dst q : same_env w w' -> txt_in w' dst q = txt_in w dst q.
Proof. intros He. unfold txt_in. by rewrite (same_env_absolute w w' dst He). Qed.

Lemma for_each_cons {S X} (x : X) (l : list X) (body : X -> St S unit) (s : S) :
  for_each (x :: l) body s
  = match body x s with
    | (Ok _, s') => for_each l body s'
    | (Raise e, s') => (Raise e, s')
    end.
Proof.
  unfold for_each. cbn [foldM]. unfold bind.
  by destruct (body x s) as [[[]|e] s'].
Qed.

(** Unlinking removes the regular file at the path and touches no other. *)
Lemma unlink_spec a w :
  is_absolute a = true ->
  let r := FS.unlink a w in
  same_env w r.2 /\ log r.2 = log w
  /\ (forall q c, file_at r.2 q c -> file_at w q c)
  /\ (forall q c, q <> a -> file_at w q c -> file_at r.2 q c)
  /\ (r.1 = Ok tt -> forall c, ~ file_at r.2 a c).
Proof.
  intros Ha. unfold FS.unlink, FS.absolute. rewrite Ha. cbn zeta.
  destruct (fault w _); cbn [fst snd].
  { split; [apply same_env_refl|]. by repeat split. }
  unfold file_at.
  destruct (FS.lookup_path a (fs w)) as [[|c0]|] eqn:Hlk; cbn [fst snd fs set_fs].
  { split; [apply same_env_refl|]. by repeat split. }
  all: split; [apply same_env_set_fs|]; split; [done|].
  all: split;
    [intros q c; destruct (decide (a = q)) as [<-|Hne];
     [by rewrite lookup_remove_eq|by rewrite lookup_remove_ne]|].
  all: split; [intros q c Hne; by rewrite lookup_remove_ne|].
  all: intros _ c; by rewrite lookup_remove_eq.
Qed.

Lemma unlink_all_spec (l : list Path) w :
  Forall (fun a => is_absolute a = true) l ->
  let r := for_each l FS.unlink w in
  same_env w r.2 /\ log r.2 = log w
  /\ (forall q c, file_at r.2 q c -> file_at w q c)
  /\ (forall q c, q ∉ l -> file_at w q c -> file_at r.2 q c)
  /\ (r.1 = Ok tt -> forall a c, a ∈ l -> ~ file_at r.2 a c).
Proof.
  intros Hl. revert w. induction Hl as [|a l Ha Hl IH]; intros w.
  { cbn. split; [apply same_env_refl|]. repeat split; try done.
    intros _ a c Hin. by apply elem_of_nil in Hin. }
  rewrite for_each_cons.
  pose proof (unlink_spec a w Ha) as (He & Hlg & Hsub & Hkeep & Hgone).
  destruct (FS.unlink a w) as [[[]|e] w1]; cbn [fst snd] in *.
  - specialize (IH w1) as (He' & Hlg' & Hsub' & Hkeep' & Hgone').
    split; [by eapply same_env_trans|].
    split; [etrans; [exact Hlg'|exact Hlg]|].
    split; [intros q c Hq; by apply Hsub, Hsub'|].
    split.
    + intros q c Hq Hf. apply not_elem_of_cons in Hq as [Hqa Hql].
      by apply Hkeep', Hkeep.
    + intros Hok a' c Hin Hf. apply elem_of_cons in Hin as [->|Hin].
      * apply Hsub' in Hf. by apply (Hgone eq_refl c).
      * by apply (Hgone' Hok a' c).
  - split; [done|]. split; [done|]. split; [done|].
    split; [|by intros [=]].
    intros q c Hq Hf. apply not_elem_of_cons in Hq as [Hqa Hql]. by apply Hkeep.
Qed.

(** The dump loop: every regular file it leaves was there before or is the
    dump of one of the paths, and files that are no text file of the folder
    stay. *)
Lemma dump_all_spec dst (l : list Path) w :
  let r := for_each l (fun p => dump_tags_to_txt p dst ;; ret tt) w in
  same_env w r.2
  /\ (forall q c, file_at r.2 q c ->
        file_at w q c
        \/ exists p ds, p ∈ l /\ q = FS.absolute w (dump_of dst p)
                        /\ dcmread w p = Ok ds /\ c = ds_text ds)
  /\ (forall q c, txt_in w dst q = false -> file_at w q c -> file_at r.2 q c).
Proof.
  revert w. induction l as [|p l IH]; intros w.
  { cbn. split; [apply same_env_refl|]. split; [by left|done]. }
  rewrite for_each_cons. unfold bind at 1.
  pose proof (dump_tags_to_txt_spec p dst w) as (He & Hnew & Hkeep & _ & _).
  destruct (dump_tags_to_txt p dst w) as [[b|e] w1]; cbn [fst snd] in *.
  - specialize (IH w1) as (He' & Hnew' & Hkeep').
    split; [by eapply same_env_trans|]. split.
    + intros q c Hq. apply Hnew' in Hq as [Hq|(p' & ds & Hin & -> & Hr & ->)].
      * apply Hnew in Hq as [Hq|(-> & ds & Hr & ->)]; [by left|].
        right. exists p, ds. split; [left|done].
      * right. exists p', ds. split; [by right|].
        rewrite (same_env_absolute w w1 _ He) , (same_env_dcmread w w1 He) in *.
        done.
    + intros q c Hq Hf. apply Hkeep'; [by rewrite (same_env_txt_in w w1 dst q He)|].
      apply Hkeep; [|done]. intros ->. by rewrite txt_in_dump_of in Hq.
  - split; [done|]. split.
    + intros q c Hq. apply Hnew in Hq as [Hq|(-> & ds & Hr & ->)]; [by left|].
      right. exists p, ds. split; [left|done].
    + intros q c Hq Hf. apply Hkeep; [|done]. intros ->.
      by rewrite txt_in_dump_of in Hq.
Qed.

(** The text files the purge collects. *)
Definition txt_paths (w : world) (dst : Path) : list Path :=
  FS.absolute w <$> filter (fun p => FS.is_file w p) (sorted (FS.glob w dst ".txt")).

Lemma txt_paths_spec w dst q :
  q ∈ txt_paths w dst <-> txt_in w dst q = true /\ exists c, file_at w q c.
Proof.
  unfold txt_paths. rewrite list_elem_of_fmap. split.
  - intros (p & -> & Hin). apply list_elem_of_filter in Hin as [Hf Hin].
    apply sorted_elem_of, glob_spec in Hin as (n & rest & -> & Hr & Hin & He).
    rewrite (Hr eq_refl) in *. change (name [n]) with n in He.
    rewrite absolute_txt by done. split; [apply txt_in_spec; by exists n|].
    unfold FS.is_file, FS.stat in Hf. rewrite absolute_txt in Hf by done.
    unfold file_at. destruct (FS.lookup_path _ (fs w)) as [[|c]|]; try done.
    by exists c.
  - intros [Ht [c Hc]]. apply txt_in_spec in Ht as (n & -> & He).
    exists (dst ++ [n]). split; [by rewrite absolute_txt|].
    apply list_elem_of_filter. split.
    + unfold FS.is_file, FS.stat. rewrite absolute_txt by done.
      unfold file_at in Hc. by rewrite Hc.
    + apply sorted_elem_of, glob_spec. exists n, []. repeat split; [|done].
      unfold file_at in Hc. clear -Hc. induction (fs w) as [|[a m] f IH]; [done|].
      simpl in Hc. rewrite fmap_cons. destruct (decide (_ = a)) as [<-|Hne].
      * left.
      * right. by apply IH.
Qed.

Lemma txt_paths_absolute w dst :
  Forall (fun a => is_absolute a = true) (txt_paths w dst).
Proof.
  apply Forall_forall. intros q Hq. unfold txt_paths in Hq.
  apply list_elem_of_fmap in Hq as (p & -> & _). apply absolute_is_absolute.
Qed.

(** What a run of the dumper guarantees about regular files. *)
Definition dump_post (paths : list Path) (dst : Path) (w : world)
    (r : result unit * world) : Prop :=
  same_env w r.2
  /\ (forall q c, file_at r.2 q c ->
        file_at w q c
        \/ exists p ds, p ∈ paths /\ q = FS.absolute w (dump_of dst p)
                        /\ dcmread w p = Ok ds /\ c = ds_text ds)
  /\ (forall q c, txt_in w dst q = false -> file_at w q c -> file_at r.2 q c)
  /\ (r.1 = Ok tt ->
      forall q c, txt_in w dst q = true -> file_at r.2 q c ->
        exists p ds, p ∈ paths /\ q = FS.absolute w (dump_of dst p)
                     /\ dcmread w p = Ok ds /\ c = ds_text ds).

Lemma dump_dicom_all_tags_spec paths dst w :
  dump_post paths dst w (dump_dicom_all_tags paths dst w).
Proof.
  assert (Hrest : forall w1 : world,
    same_env w w1 -> (forall q c, file_at w1 q c <-> file_at w q c) ->
    forall r0 : result unit,
    dump_post paths dst w
      match (r0, w1) with
      | (Ok _, s') =>
          (txt_paths <- gets (fun w0 : world =>
             FS.absolute w0 <$> filter (fun p => FS.is_file w0 p)
                                  (sorted (FS.glob w0 dst ".txt"))) ;;
           Logger.info ("purged (" +:+ pretty (length txt_paths)
                        +:+ ") prior '.txt' files: " +:+ limit_path dst) ;;
           for_each txt_paths FS.unlink ;;
           for_each paths (fun dcm_path => dump_tags_to_txt dcm_path dst ;; ret tt) ;;
           Logger.info ("dumped (" +:+ pretty (length paths) +:+ ") DICOM files: "
                        +:+ limit_path dst)) s'
      | (Raise e, s') => (Raise e, s')
      end).
  { intros w1 He Hf r0. destruct r0 as [[]|e].
    2:{ split; [done|]. split; [intros q c Hq; left; by apply Hf|].
        split; [intros q c _ Hq; by apply Hf|by intros [=]]. }
    unfold bind at 1 2, gets, Logger.info at 1, modify. cbn beta iota.
    fold (txt_paths w1 dst).
    set (w1' := add_log _ w1).
    assert (He1 : same_env w w1')
      by (eapply same_env_trans; [exact He|apply same_env_add_log]).
    unfold bind at 1.
    pose proof (unlink_all_spec (txt_paths w1 dst) w1' (txt_paths_absolute w1 dst))
      as (He2 & _ & Hsub & Hkeep & Hgone).
    destruct (for_each (txt_paths w1 dst) FS.unlink w1') as [[[]|e] w2];
      cbn [fst snd] in *.
    2:{ split; [by eapply same_env_trans|].
        split; [intros q c Hq; left; by apply Hf, Hsub|].
        split; [|by intros [=]].
        intros q c Hq Hc. apply Hkeep; [|by apply Hf].
        rewrite txt_paths_spec. intros [Ht _].
        rewrite (same_env_txt_in w w1 dst q He) in Ht. congruence. }
    assert (He3 : same_env w w2) by by eapply same_env_trans.
    unfold bind at 1.
    pose proof (dump_all_spec dst paths w2) as (He4 & Hnew & Hkeep2).
    assert (Hnew' : forall q c,
      file_at (for_each paths (fun p => dump_tags_to_txt p dst ;; ret tt) w2).2 q c ->
      file_at w2 q c
      \/ exists p ds, p ∈ paths /\ q = FS.absolute w (dump_of dst p)
                      /\ dcmread w p = Ok ds /\ c = ds_text ds).
    { intros q c Hq. apply Hnew in Hq as [Hq|(p & ds & Hin & -> & Hr & ->)];
        [by left|]. right. exists p, ds.
      by rewrite (same_env_absolute w w2 _ He3), (same_env_dcmread w w2 He3) in *. }
    clear Hnew.
    assert (Hpurged : forall q c, txt_in w dst q = true -> ~ file_at w2 q c).
    { intros q c Ht Hc. apply (Hgone eq_refl q c); [|done].
      apply txt_paths_spec. split; [by rewrite (same_env_txt_in w w1 dst q He)|].
      exists c. exact (Hsub q c Hc). }
    assert (Hkeep3 : forall q c, txt_in w dst q = false -> file_at w q c ->
      file_at (for_each paths (fun p => dump_tags_to_txt p dst ;; ret tt) w2).2 q c).
    { intros q c Hq Hc. apply Hkeep2; [by rewrite (same_env_txt_in w w2 dst q He3)|].
      apply Hkeep; [|by apply Hf]. rewrite txt_paths_spec. intros [Ht _].
      rewrite (same_env_txt_in w w1 dst q He) in Ht. congruence. }
    destruct (for_each paths _ w2) as [[[]|e] w3]; cbn [fst snd] in *.
    - unfold Logger.info, modify.
      split; [eapply same_env_trans; [|apply same_env_add_log];
              by eapply same_env_trans|].
      split.
      { intros q c Hq. apply Hnew' in Hq as [Hq|Hq]; [|by right].
        left. by apply Hf, Hsub. }
      split; [exact Hkeep3|].
      intros _ q c Ht Hq. apply Hnew' in Hq as [Hq|Hq]; [|done].
      by destruct (Hpurged q c Ht).
    - split; [by eapply same_env_trans|]. split.
      { intros q c Hq. apply Hnew' in Hq as [Hq|Hq]; [|by right].
        left. by apply Hf, Hsub. }
      split; [exact Hkeep3|by intros [=]]. }
  unfold dump_dicom_all_tags.
  destruct (FS.exists_ w dst) eqn:Hex.
  - pose proof (Hrest w (same_env_refl w) (fun q c => reflexivity _) (Ok tt)) as H.
    unfold bind at 1 2. unfold gets at 1. rewrite Hex. cbn [negb when]. unfold ret at 1.
    exact H.
  - pose proof (mkdir_spec dst w) as (He & Hl & Hf).
    pose proof (Hrest (FS.mkdir dst w).2 He Hf (FS.mkdir dst w).1) as H.
    unfold bind at 1 2. unfold gets at 1. rewrite Hex. cbn [negb when].
    destruct (FS.mkdir dst w) as [[[]|e] w1]; exact H.
Qed.

End DumperMore.

(** A dump folder that still holds the dump of an earlier run. *)
Definition w_stale : world :=
  Scenario.machine
    [ (Scenario.a_dcm, File "DICM");
      (Scenario.dump_dir ++ ["old.txt"], File "(0008,0060) Modality CS: 'MR'") ]
    Scenario.sniff_a (Scenario.read_a Scenario.ds_punct) Scenario.no_fault.

(** X15. When [dump_tags_to_txt] returns [True], the source file was read as
    a data set, the file [<stem>.txt] in the dump folder holds the text of
    that data set, the text is not empty, and nothing was logged. *)
Theorem dump_tags_to_txt_true (src dst : Path) (w : world) :
  (dump_tags_to_txt src dst w).1 = Ok true ->
  exists ds,
    dcmread w src = Ok ds
    /\ FS.stat (dump_tags_to_txt src dst w).2 (dump_of dst src)
       = Some (File (ds_text ds))
    /\ ds_text ds <> ""
    /\ log (dump_tags_to_txt src dst w).2 = log w.
Proof.
  intros Hok.
  pose proof (dump_tags_to_txt_spec src dst w) as (He & _ & _ & Ht & _).
  destruct (Ht Hok) as (ds & Hr & Hat & Hne & Hl).
  exists ds. split; [done|]. split; [|done].
  unfold FS.stat. by rewrite (same_env_absolute w _ _ He).
Qed.

Lemma dump_tags_to_txt_true_witness :
  exists ds,
    dcmread Scenario.w_punct Scenario.a_dcm = Ok ds
    /\ FS.stat (dump_tags_to_txt Scenario.a_dcm Scenario.dump_dir Scenario.w_punct).2
         (dump_of Scenario.dump_dir Scenario.a_dcm)
       = Some (File (ds_text ds))
    /\ ds_text ds <> ""
    /\ log (dump_tags_to_txt Scenario.a_dcm Scenario.dump_dir Scenario.w_punct).2
       = log Scenario.w_punct.
Proof.
  apply (dump_tags_to_txt_true Scenario.a_dcm Scenario.dump_dir Scenario.w_punct).
  vm_compute. reflexivity.
Defined.

(** X16. No exception of the classes [dump_tags_to_txt] handles ([OSError],
    [PermissionError], [ValueError], [InvalidDicomError] and their
    subclasses) leaves it, whatever the file system and pydicom do. *)
Theorem dump_tags_to_txt_no_escape (src dst : Path) (w : world) (e : exn) :
  handles dump_handled e = true ->
  (dump_tags_to_txt src dst w).1 <> Raise e.
Proof.
  intros Hh Hr.
  pose proof (dump_tags_to_txt_spec src dst w) as (_ & _ & _ & _ & H).
  rewrite Hr in H. destruct H as [[=]|[[=]|(e' & [= <-] & He')]]. congruence.
Qed.

Lemma dump_tags_to_txt_no_escape_witness :
  (dump_tags_to_txt Scenario.b_dcm Scenario.dump_dir Scenario.w_punct).1
  <> Raise FileNotFoundError.
Proof.
  apply (dump_tags_to_txt_no_escape Scenario.b_dcm Scenario.dump_dir
           Scenario.w_punct FileNotFoundError).
  vm_compute. reflexivity.
Defined.



(** X18. [dump_dicom_all_tags] adds, changes and removes regular files only
    at names ending with [.txt] directly in the dump folder: at any other
    path the same regular file is there after the run as before, also when
    the run raises. *)
Theorem dump_dicom_all_tags_frame (paths : list Path) (dst : Path) (w : world)
    (q : Path) (c : string) :
  txt_in w dst q = false ->
  file_at (dump_dicom_all_tags paths dst w).2 q c <-> file_at w q c.
Proof.
  intros Hq.
  pose proof (dump_dicom_all_tags_spec paths dst w) as (_ & Hnew & Hkeep & _).
  split; [|by apply Hkeep].
  intros Hc. apply Hnew in Hc as [Hc|(p & ds & _ & -> & _)]; [done|].
  by rewrite txt_in_dump_of in Hq.
Qed.

Lemma dump_dicom_all_tags_frame_witness :
  file_at (dump_dicom_all_tags [Scenario.a_dcm] Scenario.dump_dir w_stale).2
    Scenario.a_dcm "DICM"
  <-> file_at w_stale Scenario.a_dcm "DICM".
Proof.
  apply (dump_dicom_all_tags_frame [Scenario.a_dcm] Scenario.dump_dir w_stale
           Scenario.a_dcm "DICM").
  vm_compute. reflexivity.
Defined.

(* ===================================================================== *)
(** * Further properties of the tabulator *)
(* ===================================================================== *)

(** Every row has one cell per column. *)
Definition rectangular (df : DataFrame) : Prop :=
  Forall (fun row => length row = length (columns df)) (rows df).

(** The table [extract_to_df] builds from its records: the time stamp in a
    new column, then the two conversions. *)
Definition convert_column (c : string) (conv : list cell -> list cell)
    (df : DataFrame) : DataFrame :=
  if decide (c ∈ columns df)
  then Pandas.set_column c (conv (Pandas.column c df)) df else df.

Definition tabulate (w : world) (records : list (dict string)) : DataFrame :=
  convert_column "study_time" (to_time_column w)
    (convert_column "study_date" (to_date_column w)
       (Pandas.set_scalar "extract_date" (Some (now w))
          (Pandas.of_records records))).

(** One of the readable files has an attribute of the file meta group. *)
Definition any_meta (isd : Path -> result bool) (rd : Path -> result Dataset)
    (paths : list Path) : bool :=
  existsb (fun p => match readable isd rd p with
                    | Some ds => meta_present ds
                    | None => false
                    end) paths.

Section TabulatorMore.

Implicit Types (w : world) (df : DataFrame) (c : string) (cols : list string).

(** ** Columns by position *)

Lemma index_of_Some c cols i :
  Pandas.index_of c cols = Some i -> cols !! i = Some c /\ (i < length cols)%nat.
Proof.
  revert i. induction cols as [|c' cols IH]; intros i; simpl; [done|].
  destruct (decide (c = c')) as [->|Hne].
  - intros [= <-]. split; [done|lia].
  - destruct (Pandas.index_of c cols) as [j|]; [|done]. intros [= <-].
    destruct (IH j eq_refl) as [H1 H2]. split; [done|]. simpl. lia.
Qed.

Lemma index_of_None c cols : Pandas.index_of c cols = None <-> c ∉ cols.
Proof.
  induction cols as [|c' cols IH]; simpl.
  - split; [intros _; apply not_elem_of_nil|done].
  - destruct (decide (c = c')) as [->|Hne].
    + split; [done|]. intros H. destruct H. left.
    + rewrite not_elem_of_cons. destruct (Pandas.index_of c cols); simpl.
      * split; [done|]. intros [_ H]. by apply IH in H.
      * split; [|done]. intros _. split; [done|]. by apply IH.
Qed.

Lemma index_of_elem c cols : c ∈ cols -> is_Some (Pandas.index_of c cols).
Proof.
  intros Hin. destruct (Pandas.index_of c cols) eqn:H; [by eexists|].
  by apply index_of_None in H.
Qed.

Lemma index_of_inj c c' cols i :
  Pandas.index_of c cols = Some i -> Pandas.index_of c' cols = Some i -> c = c'.
Proof.
  intros [H1 _]%index_of_Some [H2 _]%index_of_Some. congruence.
Qed.

Lemma index_of_app c cols c' :
  Pandas.index_of c (cols ++ [c'])
  = match Pandas.index_of c cols with
    | Some i => Some i
    | None => if decide (c = c') then Some (length cols) else None
    end.
Proof.
  induction cols as [|d cols IH]; simpl.
  - by destruct (decide (c = c')).
  - destruct (decide (c = d)); [done|]. rewrite IH.
    destruct (Pandas.index_of c cols); [done|]. by destruct (decide (c = c')).
Qed.

(** ** Assigning a column *)

Lemma rows_insert {X} (n i : nat) (rs : list (list (option X))) (vs : list (option X)) :
  Forall (fun row => length row = n) rs -> length vs = length rs ->
  let rs' := zip_with (fun row v => <[i := v]> row) rs vs in
  Forall (fun row => length row = n) rs'
  /\ length rs' = length rs
  /\ ((i < n)%nat -> (fun row => default None (row !! i)) <$> rs' = vs)
  /\ (forall j, i <> j ->
        (fun row => default None (row !! j)) <$> rs'
        = (fun row => default None (row !! j)) <$> rs).
Proof.
  cbn zeta. revert vs. induction rs as [|row rs IH]; intros vs Hall Hlen.
  { destruct vs; [|done]. by repeat split. }
  destruct vs as [|v vs]; [done|].
  apply Forall_cons in Hall as [Hrow Hall]. cbn beta in Hrow.
  assert (Hlen' : length vs = length rs) by (simpl in Hlen; lia).
  destruct (IH vs Hall Hlen') as (H1 & H2 & H3 & H4).
  cbn [zip_with fmap list_fmap length]. split; [|split; [|split]].
  - constructor; [by rewrite length_insert|done].
  - by rewrite H2.
  - intros Hi. rewrite list_lookup_insert_eq by lia. cbn [default].
    f_equal. by apply H3.
  - intros j Hj. rewrite list_lookup_insert_ne by done. f_equal. by apply H4.
Qed.

Lemma rows_append {X} (n : nat) (rs : list (list (option X))) (vs : list (option X)) :
  Forall (fun row => length row = n) rs -> length vs = length rs ->
  let rs' := zip_with (fun row v => row ++ [v]) rs vs in
  Forall (fun row => length row = S n) rs'
  /\ length rs' = length rs
  /\ (fun row => default None (row !! n)) <$> rs' = vs
  /\ (forall j, (j < n)%nat ->
        (fun row => default None (row !! j)) <$> rs'
        = (fun row => default None (row !! j)) <$> rs).
Proof.
  cbn zeta. revert vs. induction rs as [|row rs IH]; intros vs Hall Hlen.
  { destruct vs; [|done]. by repeat split. }
  destruct vs as [|v vs]; [done|].
  apply Forall_cons in Hall as [Hrow Hall]. cbn beta in Hrow.
  assert (Hlen' : length vs = length rs) by (simpl in Hlen; lia).
  destruct (IH vs Hall Hlen') as (H1 & H2 & H3 & H4).
  cbn [zip_with fmap list_fmap length]. split; [|split; [|split]].
  - constructor; [rewrite length_app; simpl; lia|done].
  - by rewrite H2.
  - rewrite lookup_app_r by lia. rewrite Hrow, Nat.sub_diag. cbn [lookup default].
    f_equal. by apply H3.
  - intros j Hj. rewrite lookup_app_l by lia. f_equal. by apply H4.
Qed.

Lemma set_column_spec c (values : list cell) df :
  rectangular df -> length values = length (rows df) ->
  let df' := Pandas.set_column c values df in
  rectangular df'
  /\ columns df' = (if decide (c ∈ columns df) then columns df else columns df ++ [c])
  /\ length (rows df') = length (rows df)
  /\ Pandas.column c df' = values
  /\ (forall c', c' <> c -> Pandas.column c' df' = Pandas.column c' df).
Proof.
  intros Hrect Hlen. unfold Pandas.set_column. cbn zeta.
  destruct (Pandas.index_of c (columns df)) as [i|] eqn:Hi.
  - destruct (index_of_Some _ _ _ Hi) as [Hci Hlt].
    rewrite decide_True by by eapply list_elem_of_lookup_2.
    destruct (rows_insert (length (columns df)) i (rows df) values Hrect Hlen)
      as (H1 & H2 & H3 & H4).
    unfold rectangular, Pandas.column. cbn [columns rows]. rewrite Hi.
    split; [done|]. split; [done|]. split; [done|]. split; [by apply H3|].
    intros c' Hne. destruct (Pandas.index_of c' (columns df)) as [j|] eqn:Hj;
      [|done].
    apply H4. intros ->. apply Hne. by eapply index_of_inj.
  - assert (Hnin : c ∉ columns df) by by apply index_of_None.
    rewrite decide_False by done.
    destruct (rows_append (length (columns df)) (rows df) values Hrect Hlen)
      as (H1 & H2 & H3 & H4).
    unfold rectangular, Pandas.column. cbn [columns rows].
    rewrite index_of_app, Hi, decide_True by done.
    split; [by rewrite length_app, Nat.add_1_r|].
    split; [done|]. split; [done|]. split; [done|].
    intros c' Hne. rewrite index_of_app.
    destruct (Pandas.index_of c' (columns df)) as [j|] eqn:Hj.
    + destruct (index_of_Some _ _ _ Hj) as [_ Hlt]. by apply H4.
    + by rewrite decide_False.
Qed.

Lemma length_column c df :
  c ∈ columns df -> length (Pandas.column c df) = length (rows df).
Proof.
  intros [i Hi]%index_of_elem. unfold Pandas.column. rewrite Hi.
  by rewrite length_fmap.
Qed.

Lemma convert_column_spec c (conv : list cell -> list cell) df :
  rectangular df -> (forall l, length (conv l) = length l) ->
  let df' := convert_column c conv df in
  rectangular df' /\ columns df' = columns df
  /\ length (rows df') = length (rows df)
  /\ (forall c', c' <> c -> Pandas.column c' df' = Pandas.column c' df).
Proof.
  intros Hrect Hconv. unfold convert_column. cbn zeta.
  destruct (decide (c ∈ columns df)) as [Hin|Hnin]; [|done].
  assert (Hlen : length (conv (Pandas.column c df)) = length (rows df))
    by by rewrite Hconv, length_column.
  destruct (set_column_spec c (conv (Pandas.column c df)) df Hrect Hlen)
    as (H1 & H2 & H3 & _ & H5).
  rewrite decide_True in H2 by done. done.
Qed.

(** ** The table of the records *)

Lemma of_records_spec (records : list (dict string)) :
  let df := Pandas.of_records records in
  rectangular df /\ length (rows df) = length records
  /\ (forall c, c ∈ columns df ->
        Pandas.column c df = (fun r => Dict.get c r) <$> records).
Proof.
  unfold Pandas.of_records, rectangular, Pandas.column. cbn [columns rows].
  set (cols := Pandas.union_columns records).
  split; [|split].
  - apply Forall_fmap, Forall_forall. intros r _. simpl. by rewrite length_fmap.
  - by rewrite length_fmap.
  - intros c [i Hi]%index_of_elem. rewrite Hi.
    destruct (index_of_Some _ _ _ Hi) as [Hci _].
    rewrite <- list_fmap_compose. apply list_fmap_ext. intros _ r _. simpl.
    by rewrite list_lookup_fmap, Hci.
Qed.


(** ** The columns of the records *)

Definition add_column (cols : list string) (k : string) : list string :=
  if decide (k ∈ cols) then cols else cols ++ [k].

(** The keys of a record, by whether a meta attribute was found. *)
Definition record_columns (meta : bool) : list string :=
  base_columns ++ (if meta then ["transferSyntaxName"] else []).

Lemma union_columns_fold (records : list (dict string)) :
  Pandas.union_columns records
  = foldl (fun cols r => foldl add_column cols (Dict.keys r)) [] records.
Proof. reflexivity. Qed.

Lemma add_record_columns (b b' : bool) :
  foldl add_column (record_columns b) (record_columns b') = record_columns (b || b').
Proof. destruct b, b'; vm_compute; reflexivity. Qed.

Lemma first_record_columns (b : bool) :
  foldl add_column [] (record_columns b) = record_columns b.
Proof. destruct b; vm_compute; reflexivity. Qed.

Lemma columns_loop isd rd san (paths : list Path) (b : bool) :
  foldl (fun cols r => foldl add_column cols (Dict.keys r)) (record_columns b)
    (records_of isd rd san paths)
  = record_columns (b || any_meta isd rd paths).
Proof.
  revert b. unfold records_of, any_meta.
  induction paths as [|p ps IH]; intros b; cbn [omap list_omap existsb].
  { by rewrite orb_false_r. }
  destruct (readable isd rd p) as [ds|]; cbn [fmap option_fmap option_map foldl].
  - rewrite record_of_keys. fold (record_columns (meta_present ds)).
    rewrite add_record_columns, IH. by rewrite orb_assoc.
  - by rewrite IH.
Qed.

Lemma union_columns_records isd rd san (paths : list Path) :
  records_of isd rd san paths <> [] ->
  Pandas.union_columns (records_of isd rd san paths)
  = record_columns (any_meta isd rd paths).
Proof.
  rewrite union_columns_fold. unfold records_of at 1 2, any_meta.
  induction paths as [|p ps IH]; cbn [omap list_omap existsb]; [done|].
  destruct (readable isd rd p) as [ds|]; cbn [fmap option_fmap option_map foldl].
  - intros _. rewrite record_of_keys. fold (record_columns (meta_present ds)).
    rewrite first_record_columns. apply (columns_loop isd rd san ps).
  - exact IH.
Qed.

(** ** The run of [extract_to_df] *)

Lemma parse_one_same_env san acc p w :
  same_env w (parse_one san (get_transfer_syntax_map false) acc p w).2.
Proof.
  pose proof (parse_one_world san acc p w) as H. cbn zeta in H.
  destruct (raised (is_dicom w) (dcmread w) p) as [e|].
  - destruct (handles parse_handled e); rewrite H;
      [apply same_env_add_log|apply same_env_refl].
  - rewrite H. apply same_env_add_log.
Qed.

Lemma parse_tags_same_env san (paths : list Path) w :
  same_env w (parse_tags paths san w).2.
Proof.
  unfold parse_tags. generalize (@nil (dict string)). revert w.
  induction paths as [|p ps IH]; intros w acc; [apply same_env_refl|].
  cbn [foldM]. unfold bind.
  pose proof (parse_one_same_env san acc p w) as He.
  destruct (parse_one san (get_transfer_syntax_map false) acc p w) as [[acc'|e] w1];
    cbn [snd] in *; [|done].
  eapply same_env_trans; [exact He|apply IH].
Qed.

Lemma extract_to_df_run (paths : list Path) w :
  (extract_to_df paths w).1
  = match first_unhandled (is_dicom w) (dcmread w) paths with
    | Some e => if handles extract_handled e then Ok None else Raise e
    | None =>
        let records := records_of (is_dicom w) (dcmread w) false paths in
        if (0 <? length records)%nat then Ok (Some (tabulate w records))
        else Ok None
    end.
Proof.
  pose proof (parse_tags_spec false paths w) as Hs.
  pose proof (parse_tags_same_env false paths w) as He.
  unfold extract_to_df, try_except. unfold bind at 1.
  destruct (parse_tags paths false w) as [r w1]. cbn [fst snd] in *. subst r.
  destruct (first_unhandled (is_dicom w) (dcmread w) paths) as [e|].
  { destruct (handles extract_handled e); reflexivity. }
  cbn zeta. set (records := records_of (is_dicom w) (dcmread w) false paths).
  destruct (0 <? length records)%nat; [|reflexivity].
  destruct He as (_ & _ & _ & _ & Hnow & _ & Hdate & Htime & _).
  unfold tabulate, convert_column, bind, gets, ret. rewrite Hnow.
  destruct (decide ("study_date" ∈ _)); rewrite ?Hdate;
    destruct (decide ("study_time" ∈ _)); rewrite ?Htime; reflexivity.
Qed.

(** The shape of the table built from the records of a run. *)
Lemma tabulate_spec isd rd (paths : list Path) w :
  (forall l, length (to_date_column w l) = length l) ->
  (forall l, length (to_time_column w l) = length l) ->
  records_of isd rd false paths <> [] ->
  let records := records_of isd rd false paths in
  let df := tabulate w records in
  rectangular df
  /\ columns df = record_columns (any_meta isd rd paths) ++ ["extract_date"]
  /\ length (rows df) = length records
  /\ Pandas.column "extract_date" df = replicate (length records) (Some (now w))
  /\ (forall c, c ∈ record_columns (any_meta isd rd paths) ->
        c <> "study_date" -> c <> "study_time" ->
        Pandas.column c df = (fun r => Dict.get c r) <$> records).
Proof.
  intros Hdate Htime Hne. cbn zeta.
  set (records := records_of isd rd false paths).
  destruct (of_records_spec records) as (R0 & L0 & C0). cbn zeta in *.
  assert (Hcols : columns (Pandas.of_records records)
                  = record_columns (any_meta isd rd paths))
    by by apply union_columns_records.
  assert (Hnew : "extract_date" ∉ columns (Pandas.of_records records)).
  { rewrite Hcols. destruct (any_meta isd rd paths); vm_compute;
      intros H; by repeat (apply elem_of_cons in H as [H|H]; [done|]);
      apply elem_of_nil in H. }
  unfold tabulate, Pandas.set_scalar.
  destruct (set_column_spec "extract_date"
              (replicate (length (rows (Pandas.of_records records))) (Some (now w)))
              (Pandas.of_records records) R0) as (R1 & K1 & L1 & V1 & O1).
  { by rewrite length_replicate. }
  cbn zeta in *. rewrite decide_False in K1 by done.
  set (df1 := Pandas.set_column "extract_date" _ (Pandas.of_records records)) in *.
  destruct (convert_column_spec "study_date" (to_date_column w) df1 R1 Hdate)
    as (R2 & K2 & L2 & O2). cbn zeta in *.
  set (df2 := convert_column "study_date" (to_date_column w) df1) in *.
  destruct (convert_column_spec "study_time" (to_time_column w) df2 R2 Htime)
    as (R3 & K3 & L3 & O3). cbn zeta in *.
  split; [done|]. split; [by rewrite K3, K2, K1, Hcols|].
  split; [by rewrite L3, L2, L1, L0|]. split.
  - rewrite O3, O2, V1 by done. by rewrite L0.
  - intros c Hc Hd Ht. rewrite O3, O2 by done. rewrite O1.
    + apply C0. by rewrite Hcols.
    + intros ->. apply Hnew. by rewrite Hcols.
Qed.

End TabulatorMore.

(** X19. [extract_to_df] returns a table exactly when the parser handles
    every exception it meets and at least one of the files passes the sniff
    and is read; in every other case it returns [None] or raises. *)
Theorem extract_to_df_returns_table (paths : list Path) (w : world) :
  (exists df, (extract_to_df paths w).1 = Ok (Some df))
  <-> first_unhandled (is_dicom w) (dcmread w) paths = None
      /\ exists p, p ∈ paths /\ read_ok (is_dicom w) (dcmread w) p = true.
Proof.
  rewrite extract_to_df_run.
  destruct (first_unhandled (is_dicom w) (dcmread w) paths) as [e|].
  { split; [|by intros [[=] _]].
    intros [df H]. by destruct (handles extract_handled e). }
  cbn zeta.
  destruct (0 <? length (records_of (is_dicom w) (dcmread w) false paths))%nat
    eqn:Hlen; rewrite length_records_of in Hlen.
  - split; [|by eexists]. intros _. split; [done|].
    destruct (filter _ paths) as [|p l] eqn:Hf; [done|]. exists p.
    assert (Hin : p ∈ filter (fun p => read_ok (is_dicom w) (dcmread w) p = true)
                        paths) by (rewrite Hf; left).
    by apply list_elem_of_filter in Hin as [Hp Hin].
  - split; [by intros [df [=]]|]. intros [_ (p & Hin & Hp)].
    assert (Hin' : p ∈ filter (fun p => read_ok (is_dicom w) (dcmread w) p = true)
                         paths) by by apply list_elem_of_filter.
    destruct (filter _ paths); [by apply elem_of_nil in Hin'|done].
Qed.

(** X20. The shape of the table [extract_to_df] returns, when the two date
    conversions keep the length of a column: its columns are the twelve
    record keys, then [transferSyntaxName] if some file that was read has
    one of the three meta attributes, then [extract_date]; it has one row per
    file that passed the sniff and was read; every row has one cell per
    column; and [extract_date] holds the time stamp of the run in every
    row. *)
Theorem extract_to_df_shape (paths : list Path) (w : world) (df : DataFrame) :
  (forall l, length (to_date_column w l) = length l) ->
  (forall l, length (to_time_column w l) = length l) ->
  (extract_to_df paths w).1 = Ok (Some df) ->
  columns df
  = base_columns
    ++ (if any_meta (is_dicom w) (dcmread w) paths
        then ["transferSyntaxName"] else [])
    ++ ["extract_date"]
  /\ length (rows df)
     = length (filter (fun p => read_ok (is_dicom w) (dcmread w) p = true) paths)
  /\ Forall (fun row => length row = length (columns df)) (rows df)
  /\ Pandas.column "extract_date" df
     = replicate (length (rows df)) (Some (now w)).
Proof.
  intros Hdate Htime. rewrite extract_to_df_run.
  destruct (first_unhandled (is_dicom w) (dcmread w) paths) as [e|].
  { by destruct (handles extract_handled e). }
  cbn zeta.
  destruct (0 <? length (records_of (is_dicom w) (dcmread w) false paths))%nat
    eqn:Hlen; [|done].
  intros [= <-].
  assert (Hne : records_of (is_dicom w) (dcmread w) false paths <> []).
  { intros Hnil. rewrite Hnil in Hlen. done. }
  destruct (tabulate_spec (is_dicom w) (dcmread w) paths w Hdate Htime Hne)
    as (R & K & L & V & _). cbn zeta in *.
  split; [rewrite K; unfold record_columns; by rewrite <- app_assoc|].
  split; [rewrite L; apply length_records_of|].
  split; [exact R|]. by rewrite V, L.
Qed.

(** The table of the single readable file of [Scenario.w_punct]. *)
Definition table_punct : DataFrame :=
  tabulate Scenario.w_punct [record_of false Scenario.a_dcm Scenario.ds_punct].

Lemma extract_to_df_shape_witness :
  columns table_punct
  = base_columns
    ++ (if any_meta (is_dicom Scenario.w_punct) (dcmread Scenario.w_punct)
             [Scenario.a_dcm]
        then ["transferSyntaxName"] else [])
    ++ ["extract_date"]
  /\ length (rows table_punct)
     = length (filter (fun p => read_ok (is_dicom Scenario.w_punct)
                                  (dcmread Scenario.w_punct) p = true)
                 [Scenario.a_dcm])
  /\ Forall (fun row => length row = length (columns table_punct))
       (rows table_punct)
  /\ Pandas.column "extract_date" table_punct
     = replicate (length (rows table_punct)) (Some (now Scenario.w_punct)).
Proof.
  apply (extract_to_df_shape [Scenario.a_dcm] Scenario.w_punct table_punct).
  - intros l. reflexivity.
  - intros l. reflexivity.
  - vm_compute. reflexivity.
Defined.

(** X21. Tabulation keeps the extracted values: in the table
    [extract_to_df] returns, every column of the records other than
    [study_date] and [study_time] holds, row by row, the value the record of
    that file has under that key (the missing marker where it has none),
    in the order of the paths. *)
Theorem extract_to_df_values (paths : list Path) (w : world) (df : DataFrame)
    (c : string) :
  (forall l, length (to_date_column w l) = length l) ->
  (forall l, length (to_time_column w l) = length l) ->
  (extract_to_df paths w).1 = Ok (Some df) ->
  c ∈ columns df ->
  c <> "study_date" -> c <> "study_time" -> c <> "extract_date" ->
  Pandas.column c df
  = (fun r => Dict.get c r) <$> records_of (is_dicom w) (dcmread w) false paths.
Proof.
  intros Hdate Htime. rewrite extract_to_df_run.
  destruct (first_unhandled (is_dicom w) (dcmread w) paths) as [e|].
  { by destruct (handles extract_handled e). }
  cbn zeta.
  destruct (0 <? length (records_of (is_dicom w) (dcmread w) false paths))%nat
    eqn:Hlen; [|done].
  intros [= <-] Hc Hd Ht Hx.
  assert (Hne : records_of (is_dicom w) (dcmread w) false paths <> []).
  { intros Hnil. rewrite Hnil in Hlen. done. }
  destruct (tabulate_spec (is_dicom w) (dcmread w) paths w Hdate Htime Hne)
    as (_ & K & _ & _ & O). cbn zeta in *.
  apply O; [|done..]. rewrite K in Hc.
  apply elem_of_app in Hc as [Hc|Hc]; [done|].
  apply list_elem_of_singleton in Hc. done.
Qed.

Lemma extract_to_df_values_witness :
  Pandas.column "institution_name" table_punct
  = (fun r => Dict.get "institution_name" r)
      <$> records_of (is_dicom Scenario.w_punct) (dcmread Scenario.w_punct) false
            [Scenario.a_dcm].
Proof.
  apply (extract_to_df_values [Scenario.a_dcm] Scenario.w_punct table_punct).
  - intros l. reflexivity.
  - intros l. reflexivity.
  - vm_compute. reflexivity.
  - eapply bool_decide_eq_true_1. vm_compute. reflexivity.
  - done.
  - done.
  - done.
Defined.

(* ===================================================================== *)
(** * Further properties of the orchestrator *)
(* ===================================================================== *)

(** A stage that only writes to the log. *)
Definition only_logs (w w' : world) : Prop := same_env w w' /\ fs w' = fs w.

Section OrchestratorMore.

Implicit Types (w : world) (p q dst : Path) (paths : list Path).

Lemma only_logs_refl w : only_logs w w.
Proof. split; [apply same_env_refl|done]. Qed.

Lemma only_logs_add_log e w : only_logs w (add_log e w).
Proof. split; [apply same_env_add_log|done]. Qed.

Lemma only_logs_trans w1 w2 w3 : only_logs w1 w2 -> only_logs w2 w3 -> only_logs w1 w3.
Proof.
  intros [E1 F1] [E2 F2]. split; [by eapply same_env_trans|congruence].
Qed.

(** ** The stages *)

Lemma find_dicom_world src (ext : string) (recursive : bool) w :
  exists paths msg,
    find_dicom src ext recursive w = (Ok paths, add_log (INFO, msg) w).
Proof. by eexists _, _. Qed.

Lemma parse_tags_only_logs san paths w : only_logs w (parse_tags paths san w).2.
Proof.
  unfold parse_tags. generalize (@nil (dict string)). revert w.
  induction paths as [|p ps IH]; intros w acc; [apply only_logs_refl|].
  cbn [foldM]. unfold bind.
  pose proof (parse_one_world san acc p w) as H. cbn zeta in H.
  assert (Ho : only_logs w (parse_one san (get_transfer_syntax_map false) acc p w).2).
  { destruct (raised (is_dicom w) (dcmread w) p) as [e|].
    - destruct (handles parse_handled e); rewrite H;
        [apply only_logs_add_log|apply only_logs_refl].
    - rewrite H. apply only_logs_add_log. }
  clear H.
  destruct (parse_one san (get_transfer_syntax_map false) acc p w) as [[acc'|e] w1];
    cbn [snd] in *; [|done].
  eapply only_logs_trans; [exact Ho|apply IH].
Qed.

Lemma extract_to_df_only_logs paths w : only_logs w (extract_to_df paths w).2.
Proof.
  pose proof (parse_tags_only_logs false paths w) as Ho.
  unfold extract_to_df, try_except. unfold bind at 1.
  destruct (parse_tags paths false w) as [[records|e] w1]; cbn [snd] in Ho.
  - destruct (0 <? length records)%nat; [|exact Ho].
    unfold bind, gets, ret.
    destruct (decide ("study_date" ∈ _)); destruct (decide ("study_time" ∈ _));
      exact Ho.
  - destruct (handles extract_handled e); [|exact Ho].
    unfold bind, Logger.exception, modify, ret. cbn [snd].
    eapply only_logs_trans; [exact Ho|apply only_logs_add_log].
Qed.

(** A table comes only from a file that was read. *)
Lemma extract_to_df_some paths w df :
  (extract_to_df paths w).1 = Ok (Some df) ->
  exists p, p ∈ paths /\ read_ok (is_dicom w) (dcmread w) p = true.
Proof.
  rewrite extract_to_df_run.
  destruct (first_unhandled (is_dicom w) (dcmread w) paths) as [e|].
  { by destruct (handles extract_handled e). }
  cbn zeta.
  destruct (0 <? length (records_of (is_dicom w) (dcmread w) false paths))%nat
    eqn:Hlen; [|done].
  intros _. rewrite length_records_of in Hlen.
  destruct (filter _ paths) as [|p l] eqn:Hf; [done|]. exists p.
  assert (Hin : p ∈ filter (fun p => read_ok (is_dicom w) (dcmread w) p = true)
                      paths) by (rewrite Hf; left).
  by apply list_elem_of_filter in Hin as [Hp Hin].
Qed.

Lemma write_to_file_same_env (df : option DataFrame) dst w :
  same_env w (write_to_file df dst w).2.
Proof.
  destruct df as [d|].
  - rewrite write_to_file_stages.
    pose proof (write_stage_spec (json_of dst) (render_json w d) w) as (He1 & _).
    destruct (write_stage (json_of dst) (render_json w d) w) as [[js|e] w1];
      cbn [fst snd] in *.
    2:{ by destruct (handles write_handled e). }
    cbn zeta. set (w1' := log_if js (INFO, limit_path (json_of dst)) w1) in *.
    assert (He1' : same_env w w1').
    { eapply same_env_trans; [exact He1 | apply same_env_log_if]. }
    pose proof (write_stage_spec (csv_of dst) (render_csv w d) w1') as (He2 & _).
    destruct (write_stage (csv_of dst) (render_csv w d) w1') as [[cs|e] w2];
      cbn [fst snd] in *.
    + eapply same_env_trans; [|apply same_env_log_if]. by eapply same_env_trans.
    + destruct (handles write_handled e); cbn [snd];
        [eapply same_env_trans; [|apply same_env_add_log]|];
        by eapply same_env_trans.
  - unfold write_to_file, with_locals.
    rewrite run_bind. unfold try_except at 1.
    rewrite run_set_local, run_read_local. cbn [json_path set_json_path].
    rewrite run_gets, run_when.
    destruct (FS.is_file w _).
    + rewrite run_on_world. unfold FS.unlink at 1.
      destruct (fault w _) as [e|].
      * destruct (handles write_handled e); [|apply same_env_refl].
        rewrite run_read_local. apply same_env_refl.
      * destruct (FS.lookup_path _ (fs w)) as [[|c]|]; [apply same_env_refl|..];
          rewrite run_on_world; cbn [method_of raise];
          change (handles write_handled AttributeError) with false;
          cbn [fst snd]; apply same_env_set_fs.
    + rewrite run_on_world. apply same_env_refl.
Qed.

(** ** What a run leaves alone *)

(** The paths a run may write: the two artifacts and the text files of the
    dump folder. *)
Definition run_target (args : cmd_args) (w : world) (q : Path) : bool :=
  bool_decide (q = FS.absolute w (json_of (output_path args)))
  || bool_decide (q = FS.absolute w (csv_of (output_path args)))
  || txt_in w (dump_path args) q.

Lemma only_logs_file_at w w' q c : only_logs w w' -> file_at w' q c <-> file_at w q c.
Proof. intros [_ Hf]. unfold file_at. by rewrite Hf. Qed.

End OrchestratorMore.

(** X22. A run of the pipeline returns normally only if discovery found at
    least one file that passes the sniff and is read by pydicom: with no such
    file the run ends in an exception. *)
Theorem run_pipeline_needs_record (args : cmd_args) (w : world) :
  (run_pipeline args w).1 = Ok tt ->
  exists paths p,
    (find_dicom (input_path args) ".dcm" false w).1 = Ok paths
    /\ p ∈ paths /\ read_ok (is_dicom w) (dcmread w) p = true.
Proof.
  unfold run_pipeline. unfold bind at 1.
  destruct (find_dicom_world (input_path args) ".dcm" false w) as (paths & msg & ->).
  set (w1 := add_log (INFO, msg) w). unfold bind at 1.
  pose proof (extract_to_df_some paths w1) as Hs.
  destruct (extract_to_df paths w1) as [[[df|]|e] w2]; cbn [fst] in Hs.
  - intros _. destruct (Hs df eq_refl) as (p & Hin & Hp). by exists paths, p.
  - unfold bind at 1.
    pose proof (write_to_file_none_raises (output_path args) w2) as Hw.
    by destruct (write_to_file None (output_path args) w2) as [[b|e] w3].
  - done.
Qed.

Lemma run_pipeline_needs_record_witness :
  exists paths p,
    (find_dicom (input_path Scenario.args) ".dcm" false Scenario.w_punct).1
      = Ok paths
    /\ p ∈ paths
    /\ read_ok (is_dicom Scenario.w_punct) (dcmread Scenario.w_punct) p = true.
Proof.
  apply (run_pipeline_needs_record Scenario.args Scenario.w_punct).
  vm_compute. reflexivity.
Defined.

(** X23. A run of the pipeline writes only where it is meant to: at any path
    that is neither of the two artifacts in the output folder nor a name
    ending with [.txt] directly in the dump folder, the same regular file is
    there after the run as before, however the run ends. In particular the
    input files are never changed or deleted. *)
Theorem run_pipeline_frame (args : cmd_args) (w : world) (q : Path) (c : string) :
  run_target args w q = false ->
  file_at (run_pipeline args w).2 q c <-> file_at w q c.
Proof.
  intros Hq. unfold run_target in Hq.
  apply orb_false_iff in Hq as [Hq Ht]. apply orb_false_iff in Hq as [Hj Hc].
  apply bool_decide_eq_false in Hj, Hc.
  unfold run_pipeline. unfold bind at 1.
  destruct (find_dicom_world (input_path args) ".dcm" false w) as (paths & msg & ->).
  set (w1 := add_log (INFO, msg) w).
  assert (H1 : only_logs w w1) by apply only_logs_add_log.
  unfold bind at 1.
  pose proof (extract_to_df_only_logs paths w1) as H2.
  destruct (extract_to_df paths w1) as [[df|e] w2]; cbn [snd] in H2.
  2:{ apply only_logs_file_at. by eapply only_logs_trans. }
  assert (H12 : only_logs w w2) by by eapply only_logs_trans.
  destruct H12 as [E2 F2].
  unfold bind at 1.
  pose proof (write_to_file_same_env df (output_path args) w2) as E3.
  pose proof (write_to_file_fs df (output_path args) w2 q) as F3.
  rewrite !(same_env_absolute w w2 _ E2) in F3. specialize (F3 Hj Hc).
  destruct (write_to_file df (output_path args) w2) as [[b|e] w3];
    cbn [snd] in E3, F3.
  2:{ cbn [snd]. unfold file_at. by rewrite F3, F2. }
  assert (E13 : same_env w w3) by by eapply same_env_trans.
  unfold bind at 1.
  pose proof (dump_dicom_all_tags_spec paths (dump_path args) w3)
    as (E4 & Hnew & Hkeep & _).
  assert (Ht3 : txt_in w3 (dump_path args) q = false)
    by by rewrite (same_env_txt_in w w3 _ _ E13).
  assert (H34 : file_at (dump_dicom_all_tags paths (dump_path args) w3).2 q c
                <-> file_at w q c).
  { split.
    - intros Hf. apply Hnew in Hf as [Hf|(p & ds & _ & -> & _)].
      + unfold file_at in *. by rewrite <- F2, <- F3.
      + by rewrite txt_in_dump_of in Ht3.
    - intros Hf. apply Hkeep; [done|]. unfold file_at in *. by rewrite F3, F2. }
  destruct (dump_dicom_all_tags paths (dump_path args) w3) as [[[]|e] w4];
    cbn [snd] in H34; [|exact H34].
  unfold bind, gets, Logger.info, modify. exact H34.
Qed.

Lemma run_pipeline_frame_witness :
  file_at (run_pipeline Scenario.args Scenario.w_punct).2 Scenario.a_dcm "DICM"
  <-> file_at Scenario.w_punct Scenario.a_dcm "DICM".
Proof.
  apply (run_pipeline_frame Scenario.args Scenario.w_punct Scenario.a_dcm "DICM").
  vm_compute. reflexivity.
Defined.
